(** * StreamShield: the OBS profanity censor bot (obs_sneeze_censor.py)

    A shallow embedding of [CensorBot] and of the properties stated about it:
    text matching, word-list loading, the audio queue, the censorship trigger
    with its try/finally cleanup, and the recognition loop. *)

From Stdlib Require Import ZArith NArith Ascii String List Lia.
From stdpp Require Import gmap strings list.
Import ListNotations.

Local Open Scope string_scope.
Local Open Scope list_scope.

(** ** Python [str] operations used by the bot

    A character is a code point below 256, carried by [ascii]; on that range
    [str.lower] works character by character. *)
Module PyStr.

Definition chars (s : string) : list ascii := list_ascii_of_string s.
Definition of_chars (l : list ascii) : string := string_of_list_ascii l.

(** [str.isspace] on one character: TAB..CR, FS..US, SPACE, NEL, NBSP. *)
Definition isspace (c : ascii) : bool :=
  let n := N_of_ascii c in
  (((9 <=? n) && (n <=? 13)) || ((28 <=? n) && (n <=? 32))
   || (n =? 133) || (n =? 160))%N.

(** [str.lower] on one character: A..Z and the Latin-1 capitals. *)
Definition lower_char (c : ascii) : ascii :=
  let n := N_of_ascii c in
  if (((65 <=? n) && (n <=? 90))
      || ((192 <=? n) && (n <=? 222) && negb (n =? 215)))%N
  then ascii_of_N (n + 32) else c.

Definition lower (s : string) : string := of_chars (map lower_char (chars s)).

(** [str.split()] without argument: the maximal runs of characters that
    are not white space, in order. *)
Fixpoint split_chars (s : list ascii) : list (list ascii) :=
  match s with
  | [] => []
  | c :: s' =>
      if isspace c then split_chars s'
      else match s' with
           | [] => [[c]]
           | d :: _ =>
               if isspace d then [c] :: split_chars s'
               else match split_chars s' with
                    | t :: ts => (c :: t) :: ts
                    | [] => [[c]]
                    end
           end
  end.

Definition split (s : string) : list string :=
  map of_chars (split_chars (chars s)).

(** [str.strip()] without argument. *)
Fixpoint lstrip_chars (s : list ascii) : list ascii :=
  match s with
  | c :: s' => if isspace c then lstrip_chars s' else s
  | [] => []
  end.

Definition strip_chars (s : list ascii) : list ascii :=
  rev (lstrip_chars (rev (lstrip_chars s))).

Definition strip (s : string) : string := of_chars (strip_chars (chars s)).

(** Truthiness of a [str]. *)
Definition truthy (s : string) : bool :=
  match s with EmptyString => false | _ => true end.

(** The last path component ([Path(p).name]) and its suffix
    ([Path(p).suffix]): the part from the last dot, when that dot is neither
    the first nor the last character of the name. *)
Fixpoint after_last (sep : ascii) (acc s : list ascii) : list ascii :=
  match s with
  | [] => acc
  | c :: s' =>
      if Ascii.eqb c sep then after_last sep s' s'
      else after_last sep acc s'
  end.

Definition name_chars (p : list ascii) : list ascii := after_last "/"%char p p.

Definition name (p : string) : string := of_chars (name_chars (chars p)).

Fixpoint rfind_dot (i : nat) (best : option nat) (s : list ascii) : option nat :=
  match s with
  | [] => best
  | c :: s' =>
      rfind_dot (S i) (if Ascii.eqb c "."%char then Some i else best) s'
  end.

Definition suffix (p : string) : string :=
  let n := name_chars (chars p) in
  match rfind_dot 0 None n with
  | Some i =>
      if (0 <? i)%nat && (i <? length n - 1)%nat
      then of_chars (drop i n) else ""
  | None => ""
  end.

(** [str(p)] for [p = Path(folder) / name], as [iterdir] yields it (POSIX
    flavour). [Path(folder)] keeps a root, "/" or, for exactly two leading
    slashes, "//", and the parts of [folder] between slashes that are neither
    empty nor "."; the child has [name] as one more part, and its string is
    the root followed by the parts joined with single slashes. *)
Fixpoint components_go (cur s : list ascii) : list (list ascii) :=
  match s with
  | [] => [rev cur]
  | c :: s' =>
      if Ascii.eqb c "/"%char then rev cur :: components_go [] s'
      else components_go (c :: cur) s'
  end.

Definition is_part (x : list ascii) : bool :=
  match x with
  | [] => false
  | [c] => negb (Ascii.eqb c "."%char)
  | _ => true
  end.

Definition parts (s : list ascii) : list (list ascii) :=
  List.filter is_part (components_go [] s).

Definition root (s : list ascii) : list ascii :=
  match s with
  | "/"%char :: "/"%char :: "/"%char :: _ => ["/"%char]
  | "/"%char :: "/"%char :: _ => ["/"%char; "/"%char]
  | "/"%char :: _ => ["/"%char]
  | _ => []
  end.

Fixpoint join (l : list (list ascii)) : list ascii :=
  match l with
  | [] => []
  | [x] => x
  | x :: l' => x ++ "/"%char :: join l'
  end.

Definition child_chars (folder name : list ascii) : list ascii :=
  root folder ++ join (parts folder ++ [name]).

Definition child (folder name : string) : string :=
  of_chars (child_chars (chars folder) (chars name)).

End PyStr.

(** ** The word set and the match on a finalized text *)

Definition DEFAULT_SWEAR_WORDS : gset string :=
  list_to_set
    [ "fuck"; "shit"; "bitch"; "asshole"; "bastard"; "damn"; "crap";
      "dick"; "piss"; "bollocks"; "bugger"; "bloody"; "hell" ].

(** Line 126: [set(text.split()) & self.swear_words]. *)
Definition bad_words (text : string) (swear_words : gset string) : gset string :=
  list_to_set (PyStr.split text) ∩ swear_words.

(** Lines 124-126: the text of the result is lowered first. *)
Definition detect (raw : string) (swear_words : gset string) : gset string :=
  bad_words (PyStr.lower raw) swear_words.

(** ** The backend, the file system and the recognizer as seen by the bot *)

(** Requests of the OBS WebSocket client that the bot issues. *)
Inductive Call :=
| set_input_mute (name : string) (muted : bool)
| set_input_settings (name : string) (local_file : string) (overlay : bool)
| set_scene_item_enabled (scene : string) (item : Z) (enabled : bool).

Global Instance Call_eq_dec : EqDecision Call.
Proof. solve_decision. Defined.

(** What the bot prints. *)
Inductive LogLine :=
| LogStatus (status : string)
| LogResult (text : option string)
| LogDetected (bad : gset string)
| LogSneezing (file_name : string)
| LogUnmuted.

(** Everything observable that the bot does, in the order it does it. *)
Inductive Event :=
| Request (c : Call)
| RequestFailed (c : Call)
| Iterdir (folder : string)
| Sleep (secs : Z)
| Printed (l : LogLine).

Inductive exn :=
| SystemExit (msg : string)
| OBSError (c : Call)
| OSError (path : string)
| UnicodeDecodeError
| ValueError
| OverflowError
| VoskError.

Definition bytes := list Byte.byte.

(** What is at a path, as far as [is_file], [open] and [iterdir] can tell. A
    regular file that can be opened carries the lines that iterating over it
    yields, or nothing when its bytes are not valid UTF-8. [Unreadable] is a
    regular file that [open] refuses; [Unreachable] is a path on which
    [stat] itself raises (a name that is too long, a parent directory that
    may not be searched), so that [is_file] and [iterdir] raise too. A path
    that is not in the map does not exist. *)
Inductive Node :=
| RegularFile (text : option (list string))
| Unreadable
| Directory (names : list string)
| Unreachable.

(** The collaborators are deterministic in what the bot has done so far:
    whether a request raises, which index [random.choice] draws, what the
    recognizer answers on the frames it was fed. *)
Record World := {
  obs_raises : list Event -> Call -> bool;
  choice_index : list Event -> nat;
  fs : gmap string Node;
  accept_waveform : list bytes -> option bool;
  result_text : list bytes -> option string
}.

(** The state of OBS that the requests change. *)
Record Obs := {
  input_muted : gmap string bool;
  input_file : gmap string string;
  item_enabled : gmap (string * Z) bool
}.

Definition apply_call (c : Call) (o : Obs) : Obs :=
  match c with
  | set_input_mute n b =>
      {| input_muted := <[n := b]> (input_muted o);
         input_file := input_file o; item_enabled := item_enabled o |}
  | set_input_settings n f _ =>
      {| input_muted := input_muted o;
         input_file := <[n := f]> (input_file o); item_enabled := item_enabled o |}
  | set_scene_item_enabled s i b =>
      {| input_muted := input_muted o; input_file := input_file o;
         item_enabled := <[(s, i) := b]> (item_enabled o) |}
  end.

Definition apply_event (e : Event) (o : Obs) : Obs :=
  match e with Request c => apply_call c o | _ => o end.

(** OBS after a run of events, the oldest first. *)
Definition replay (evs : list Event) (o : Obs) : Obs :=
  fold_left (fun o e => apply_event e o) evs o.

(** ** [queue.Queue] *)
Module Queue.

Record t := { maxsize : Z; items : list bytes }.

(** [queue.Queue(maxsize=0)]. *)
Definition new (maxsize : Z) : t := {| maxsize := maxsize; items := [] |}.

Definition qsize (q : t) : Z := Z.of_nat (length (items q)).

(** [full()]: never, unless [maxsize] is positive. *)
Definition full (q : t) : bool := (0 <? maxsize q)%Z && (maxsize q <=? qsize q)%Z.

(** [put(item)] with the default [block=True]: [None] when the caller has
    to wait for a free slot. *)
Definition put (x : bytes) (q : t) : option t :=
  if full q then None
  else Some {| maxsize := maxsize q; items := items q ++ [x] |}.

(** [get(timeout=...)] on a queue nobody else fills in the meantime:
    [None] stands for [queue.Empty]. *)
Definition get (q : t) : option (bytes * t) :=
  match items q with
  | [] => None
  | x :: rest => Some (x, {| maxsize := maxsize q; items := rest |})
  end.

End Queue.

(** ** The bot *)

Record Config := {
  mic_source_name : string;
  cat_source_name : string;
  cat_folder : string;
  swear_list : option string;
  cat_visible_seconds : Z
}.

(** The fields that are fixed once [__init__] has returned. *)
Record Bot := {
  cfg : Config;
  swear_words : gset string;
  scene_name : string;
  cat_item_id : Z
}.

(** The fields that change, with OBS and the trace of events. *)
Record State := {
  silence : bool;
  stop_event : bool;
  audio_queue : Queue.t;
  fed : list bytes;
  obs : Obs;
  trace : list Event
}.

Definition set_silence (b : bool) (st : State) : State :=
  {| silence := b; stop_event := stop_event st; audio_queue := audio_queue st;
     fed := fed st; obs := obs st; trace := trace st |}.

Definition set_audio_queue (q : Queue.t) (st : State) : State :=
  {| silence := silence st; stop_event := stop_event st; audio_queue := q;
     fed := fed st; obs := obs st; trace := trace st |}.

Definition set_fed (f : list bytes) (st : State) : State :=
  {| silence := silence st; stop_event := stop_event st;
     audio_queue := audio_queue st; fed := f; obs := obs st; trace := trace st |}.

Definition emit (e : Event) (st : State) : State :=
  {| silence := silence st; stop_event := stop_event st;
     audio_queue := audio_queue st; fed := fed st;
     obs := apply_event e (obs st); trace := trace st ++ [e] |}.

(** [CensorBot.__init__], line 41 and line 51, on a fresh OBS view. *)
Definition init_state (o : Obs) : State :=
  {| silence := false; stop_event := false; audio_queue := Queue.new 0;
     fed := []; obs := o; trace := [] |}.

(** ** State and exceptions *)

Inductive result (A : Type) :=
| Ok (a : A)
| Raise (e : exn).
Arguments Ok {A} a.
Arguments Raise {A} e.

Definition M (A : Type) : Type := State -> State * result A.

Global Instance M_ret : MRet M := fun A a st => (st, Ok a).

Global Instance M_bind : MBind M := fun A B f m st =>
  match m st with
  | (st', Ok a) => f a st'
  | (st', Raise e) => (st', Raise e)
  end.

Definition raise {A} (e : exn) : M A := fun st => (st, Raise e).

Definition modify (f : State -> State) : M unit := fun st => (f st, Ok tt).

(** [try: body finally: fin]: [fin] always runs; an exception of [fin]
    replaces the outcome of [body]. *)
Definition try_finally {A} (body : M A) (fin : M unit) : M A := fun st =>
  match body st with
  | (st1, r) =>
      match fin st1 with
      | (st2, Ok _) => (st2, r)
      | (st2, Raise e) => (st2, Raise e)
      end
  end.

Definition print (l : LogLine) : M unit := modify (emit (Printed l)).

(** [time.sleep(secs)] for an [int]: the seconds are first converted to a
    64-bit count of nanoseconds, which raises [OverflowError] when they do
    not fit; a negative length then raises [ValueError]. *)
Definition sleep_overflows (secs : Z) : bool :=
  ((secs <? -9223372036) || (9223372036 <? secs))%Z.

Definition time_sleep (secs : Z) : M unit :=
  if sleep_overflows secs then raise OverflowError
  else if (secs <? 0)%Z then raise ValueError
  else modify (emit (Sleep secs)).

Definition VIDEO_SUFFIXES : list string := [".mp4"; ".mov"; ".mkv"; ".webm"].

Definition is_video (name : string) : bool :=
  bool_decide (PyStr.lower (PyStr.suffix name) ∈ VIDEO_SUFFIXES).

Section Bot.

Context (w : World) (b : Bot).

(** One request to OBS: it either takes effect or raises. *)
Definition ws (c : Call) : M unit := fun st =>
  if obs_raises w (trace st) c
  then (emit (RequestFailed c) st, Raise (OBSError c))
  else (emit (Request c) st, Ok tt).

(** Lines 60-65. *)
Definition _load_swear_words (c : Config) : M (gset string) :=
  let words := DEFAULT_SWEAR_WORDS in
  match swear_list c with
  | Some p =>
      match fs w !! p with
      | Some (RegularFile (Some lines)) =>
          mret (words ∪ list_to_set
                  (map (fun l => PyStr.lower (PyStr.strip l))
                     (filter (fun l => PyStr.truthy (PyStr.strip l) = true) lines)))
      | Some (RegularFile None) => raise UnicodeDecodeError
      | Some Unreadable => raise (OSError p)
      | Some Unreachable => raise (OSError p)
      | Some (Directory _) | None => mret words
      end
  | None => mret words
  end.

(** Lines 90-93: [None] when [put] has to wait. *)
Definition _audio_callback (indata : bytes) (status : option string)
    (st : State) : option State :=
  let st1 := match status with
             | Some s => if PyStr.truthy s then emit (Printed (LogStatus s)) st else st
             | None => st
             end in
  match Queue.put indata (audio_queue st1) with
  | Some q => Some (set_audio_queue q st1)
  | None => None
  end.

(** Lines 160-164. *)
Definition _pick_cat_video : M string :=
  modify (emit (Iterdir (cat_folder (cfg b)))) ;;
  match fs w !! cat_folder (cfg b) with
  | Some (Directory names) =>
      let vids := map (fun n => PyStr.child (cat_folder (cfg b)) n)
                      (filter (fun n => is_video n = true) names) in
      match vids with
      | [] => raise (SystemExit "[ERR] No video files found in cat folder")
      | v :: _ => fun st =>
          (st, Ok (nth (choice_index w (trace st) mod length vids) vids v))
      end
  | _ => raise (OSError (cat_folder (cfg b)))
  end.

(** Lines 166-167. *)
Definition _set_cat_source_file (path : string) : M unit :=
  ws (set_input_settings (cat_source_name (cfg b)) path false).

(** Lines 135-155. *)
Definition _trigger_censor : M unit := fun st =>
  if silence st then (st, Ok tt)
  else
    (modify (set_silence true) ;;
     try_finally
       (ws (set_input_mute (mic_source_name (cfg b)) true) ;;
        video_path ← _pick_cat_video ;
        _set_cat_source_file video_path ;;
        ws (set_scene_item_enabled (scene_name b) (cat_item_id b) true) ;;
        print (LogSneezing (PyStr.name video_path)) ;;
        time_sleep (cat_visible_seconds (cfg b)))
       (ws (set_scene_item_enabled (scene_name b) (cat_item_id b) false) ;;
        ws (set_input_mute (mic_source_name (cfg b)) false) ;;
        modify (set_silence false) ;;
        print LogUnmuted)) st.

(** [self.recognizer.AcceptWaveform(data)]. *)
Definition AcceptWaveform (data : bytes) : M bool := fun st =>
  let st1 := set_fed (fed st ++ [data]) st in
  match accept_waveform w (fed st1) with
  | Some r => (st1, Ok r)
  | None => (st1, Raise VoskError)
  end.

(** [json.loads(self.recognizer.Result())], of which only the "text" key
    is read. *)
Definition Result : M (option string) := fun st =>
  (st, Ok (result_text w (fed st))).

(** Lines 121-129: what one iteration does with the frame it got. *)
Definition process_frame (data : bytes) : M unit :=
  final ← AcceptWaveform data ;
  if final : bool then
    result ← Result ;
    print (LogResult result) ;;
    let text := PyStr.lower (default "" result) in
    if PyStr.truthy text then
      let bad := bad_words text (swear_words b) in
      if bool_decide (bad = ∅) then mret tt
      else print (LogDetected bad) ;; _trigger_censor
    else mret tt
  else mret tt.

(** Lines 115-129, for at most [fuel] iterations. *)
Fixpoint _recognition_loop (fuel : nat) : M unit :=
  match fuel with
  | O => mret tt
  | S fuel' => fun st =>
      if stop_event st then (st, Ok tt)
      else match Queue.get (audio_queue st) with
           | None => _recognition_loop fuel' st
           | Some (data, q) =>
               (process_frame data ;; _recognition_loop fuel')
                 (set_audio_queue q st)
           end
  end.

End Bot.

(** From the specification: [t] is a white-space delimited token of [s], a
    non-empty run without white space that is bounded on each side by white
    space or by the end of the text. *)
Definition token_chars (t s : list ascii) : Prop :=
  ∃ pre post : list ascii,
    s = pre ++ t ++ post ∧
    t ≠ [] ∧
    Forall (fun c => PyStr.isspace c = false) t ∧
    (pre = [] ∨ ∃ c, last pre = Some c ∧ PyStr.isspace c = true) ∧
    (post = [] ∨ ∃ c, head post = Some c ∧ PyStr.isspace c = true).

Definition is_token (t text : string) : Prop :=
  token_chars (PyStr.chars t) (PyStr.chars text).


(** ** Reading a run of events *)

(** The requests that were issued, whether they returned or raised. *)
Definition requests (evs : list Event) : list Call :=
  omap (fun e => match e with
                 | Request c | RequestFailed c => Some c
                 | _ => None
                 end) evs.

(** The states OBS goes through, one after each event. *)
Fixpoint obs_history (evs : list Event) (o : Obs) : list Obs :=
  match evs with
  | [] => []
  | e :: evs' => apply_event e o :: obs_history evs' (apply_event e o)
  end.

Definition count_event (P : Event -> bool) (evs : list Event) : nat :=
  length (List.filter P evs).

(** A [set_input_mute] request with the given flag, returned or not. *)
Definition is_mute (v : bool) (e : Event) : bool :=
  match e with
  | Request (set_input_mute _ v') | RequestFailed (set_input_mute _ v') =>
      Bool.eqb v v'
  | _ => false
  end.

(** A [set_scene_item_enabled] request with the given flag. *)
Definition is_overlay (v : bool) (e : Event) : bool :=
  match e with
  | Request (set_scene_item_enabled _ _ v')
  | RequestFailed (set_scene_item_enabled _ _ v') => Bool.eqb v v'
  | _ => false
  end.

Definition is_iterdir (e : Event) : bool :=
  match e with Iterdir _ => true | _ => false end.

Definition is_print (e : Event) : bool :=
  match e with Printed _ => true | _ => false end.

Section Session.

Context (w : World) (b : Bot).

Definition mute_call (v : bool) : Call :=
  set_input_mute (mic_source_name (cfg b)) v.

Definition overlay_call (v : bool) : Call :=
  set_scene_item_enabled (scene_name b) (cat_item_id b) v.

Definition file_call (path : string) : Call :=
  set_input_settings (cat_source_name (cfg b)) path false.

(** What OBS shows: the microphone input muted, the overlay item visible. *)
Definition mic_muted (o : Obs) : option bool :=
  input_muted o !! mic_source_name (cfg b).

Definition overlay_visible (o : Obs) : option bool :=
  item_enabled o !! (scene_name b, cat_item_id b).

(** The overlay is not up over a live microphone. *)
Definition covered (o : Obs) : Prop :=
  overlay_visible o = Some true -> mic_muted o = Some true.

(** The videos of the asset folder, as [_pick_cat_video] lists them. *)
Definition videos : option (list string) :=
  match fs w !! cat_folder (cfg b) with
  | Some (Directory names) =>
      Some (map (fun n => PyStr.child (cat_folder (cfg b)) n)
                (filter (fun n => is_video n = true) names))
  | _ => None
  end.

(** The two blocks of the try/finally of [_trigger_censor]. *)
Definition body : M unit :=
  ws w (mute_call true) ;;
  video_path ← _pick_cat_video w b ;
  _set_cat_source_file w b video_path ;;
  ws w (overlay_call true) ;;
  print (LogSneezing (PyStr.name video_path)) ;;
  time_sleep (cat_visible_seconds (cfg b)).

Definition cleanup : M unit :=
  ws w (overlay_call false) ;;
  ws w (mute_call false) ;;
  modify (set_silence false) ;;
  print LogUnmuted.

(** The state the cleanup leaves when both of its requests return. *)
Definition reverted (st : State) : State :=
  emit (Printed LogUnmuted)
    (set_silence false
       (emit (Request (mute_call false))
          (emit (Request (overlay_call false)) st))).

(** What one call of [_trigger_censor] adds to the trace. *)
Definition session_events (st : State) : list Event :=
  drop (length (trace st)) (trace (_trigger_censor w b st).1).

(** The state in which [process_frame] calls the trigger, when the frame
    completes an utterance whose text holds a word of the set. *)
Definition at_detection (data : bytes) (st : State) : option State :=
  let st1 := set_fed (fed st ++ [data]) st in
  match accept_waveform w (fed st1) with
  | Some true =>
      let result := result_text w (fed st1) in
      let bad := detect (default "" result) (swear_words b) in
      if bool_decide (bad = ∅) then None
      else Some (emit (Printed (LogDetected bad))
                   (emit (Printed (LogResult result)) st1))
  | _ => None
  end.

(** The capture side: one callback per captured block, none while an
    earlier one is still waiting in [put]. *)
Fixpoint capture (blocks : list bytes) (st : State) : option State :=
  match blocks with
  | [] => Some st
  | x :: rest =>
      match _audio_callback x None st with
      | Some st' => capture rest st'
      | None => None
      end
  end.

(** [_trigger_censor] once more, line by line, with [intr] run at every
    point between two of its steps at which the session is in progress: what
    another caller does at that point. With nothing in between it is
    [_trigger_censor]. *)
Definition _trigger_censor_among (intr : M unit) : M unit := fun st =>
  if silence st then (st, Ok tt)
  else
    (modify (set_silence true) ;;
     intr ;;
     try_finally
       (ws w (set_input_mute (mic_source_name (cfg b)) true) ;;
        intr ;;
        video_path ← _pick_cat_video w b ;
        intr ;;
        _set_cat_source_file w b video_path ;;
        intr ;;
        ws w (set_scene_item_enabled (scene_name b) (cat_item_id b) true) ;;
        intr ;;
        print (LogSneezing (PyStr.name video_path)) ;;
        intr ;;
        time_sleep (cat_visible_seconds (cfg b)))
       (intr ;;
        ws w (set_scene_item_enabled (scene_name b) (cat_item_id b) false) ;;
        intr ;;
        ws w (set_input_mute (mic_source_name (cfg b)) false) ;;
        intr ;;
        modify (set_silence false) ;;
        print LogUnmuted)) st.

End Session.



Definition keeps {A} (m : M A) : Prop :=
  forall s, silence s = true -> silence (m s).1 = true.

(** A computation that only appends to the trace, changes OBS only through
    the requests it records, and leaves the queue and the stop flag alone. *)
Definition grows {A} (m : M A) : Prop :=
  forall st, exists evs,
    trace (m st).1 = trace st ++ evs /\
    obs (m st).1 = replay evs (obs st) /\
    audio_queue (m st).1 = audio_queue st /\
    stop_event (m st).1 = stop_event st.

(** ** The claims of the specification that the code is compared with *)

(** Revert guarantee as specified: once the mute request has returned, a
    failure of any later step of the [try] block still ends with the overlay
    hidden, the microphone live and the flag cleared. *)
Definition revert_as_specified (w : World) (b : Bot) (st : State) : Prop :=
  silence st = false ->
  obs_raises w (trace st) (mute_call b true) = false ->
  forall e, (body w b (set_silence true st)).2 = Raise e ->
  let st' := (_trigger_censor w b st).1 in
  overlay_visible b (obs st') = Some false /\
  mic_muted b (obs st') = Some false /\
  silence st' = false.

(** Frame queue as specified: some capacity bounds the queue whatever the
    capture side pushes, and a push at that bound has to wait. *)
Definition queue_bounded_as_specified (o : Obs) : Prop :=
  exists cap : Z,
    forall blocks st',
      capture blocks (init_state o) = Some st' ->
      (Queue.qsize (audio_queue st') <= cap)%Z /\
      (Queue.qsize (audio_queue st') = cap ->
       (forall x, _audio_callback x None st' = None)).

(** Scenario B as specified, on a run of the recognition loop that meets a
    detection over an asset folder without videos: mute on and mute off are
    requested, the overlay item is never touched, the loop goes on. *)
Definition empty_folder_as_specified (w : World) (b : Bot) (fuel : nat)
    (st : State) : Prop :=
  let '(st', r) := _recognition_loop w b fuel st in
  Request (mute_call b true) ∈ trace st' /\
  Request (mute_call b false) ∈ trace st' /\
  (forall e v, e ∈ trace st' -> is_overlay v e = false) /\
  r = Ok tt.


(** Failure inside the cleanup as specified: the trigger contains it, and
    something is printed after the request that raised. *)
Definition cleanup_failure_as_specified (w : World) (b : Bot) (st : State) : Prop :=
  forall c pre post,
    session_events w b st = pre ++ RequestFailed c :: post ->
    c = overlay_call b false \/ c = mute_call b false ->
    (_trigger_censor w b st).2 = Ok tt /\
    exists l, Printed l ∈ post.

(** Decoder failure as specified: the frame is skipped with a log line and
    the loop goes on to the frames behind it. *)
Definition decoder_failure_as_specified (w : World) (b : Bot) (fuel : nat)
    (st : State) : Prop :=
  let '(st', r) := _recognition_loop w b fuel st in
  r = Ok tt /\
  Queue.items (audio_queue st') = [] /\
  exists l, Printed l ∈ trace st'.

(** One pair per session as specified: a session whose mute request has
    returned lists the folder once and requests mute-on and mute-off once
    each. *)
Definition one_pair_as_specified (w : World) (b : Bot) (st : State) : Prop :=
  silence st = false ->
  obs_raises w (trace st) (mute_call b true) = false ->
  count_event is_iterdir (session_events w b st) = 1%nat /\
  count_event (is_mute true) (session_events w b st) = 1%nat /\
  count_event (is_mute false) (session_events w b st) = 1%nat.

(** Loading a missing list as specified: whenever the given path is not
    an existing regular file, the default set comes back and nothing
    else happens. *)
Definition missing_list_as_specified (w : World) (c : Config) (st : State)
    : Prop :=
  forall p,
    swear_list c = Some p ->
    (forall text, fs w !! p <> Some (RegularFile text)) ->
    fs w !! p <> Some Unreadable ->
    _load_swear_words w c st = (st, Ok DEFAULT_SWEAR_WORDS).

(** ** A concrete installation *)
Module Demo.

Definition config : Config :=
  {| mic_source_name := "Mic/Aux"; cat_source_name := "SneezeCat";
     cat_folder := "cats"; swear_list := Some "swears.txt";
     cat_visible_seconds := 4 |}.

Definition bot : Bot :=
  {| cfg := config; swear_words := DEFAULT_SWEAR_WORDS;
     scene_name := "Live"; cat_item_id := 7 |}.

(** OBS before the first detection: microphone live, overlay hidden. *)
Definition obs0 : Obs :=
  {| input_muted := {[ "Mic/Aux" := false ]};
     input_file := ∅;
     item_enabled := {[ ("Live", 7%Z) := false ]} |}.

Definition frame1 : bytes := [Byte.x01].
Definition frame2 : bytes := [Byte.x02].

(** Two captured frames wait in the queue. *)
Definition two_frames : State :=
  set_audio_queue {| Queue.maxsize := 0; Queue.items := [frame1; frame2] |}
    (init_state obs0).

(** OBS answers every request, the folder holds one video, and every
    frame completes the utterance "well DAMN it". *)
Definition world : World :=
  {| obs_raises := fun _ _ => false;
     choice_index := fun _ => 5%nat;
     fs := {[ "cats" := Directory ["notes.txt"; "sneeze.MP4"] ]};
     accept_waveform := fun _ => Some true;
     result_text := fun _ => Some "well DAMN it" |}.

Definition with_obs (raises : list Event -> Call -> bool) (w : World) : World :=
  {| obs_raises := raises; choice_index := choice_index w; fs := fs w;
     accept_waveform := accept_waveform w; result_text := result_text w |}.

Definition with_fs (f : gmap string Node) (w : World) : World :=
  {| obs_raises := obs_raises w; choice_index := choice_index w; fs := f;
     accept_waveform := accept_waveform w; result_text := result_text w |}.

(** The folder holds no video. *)
Definition empty_folder_world : World :=
  with_fs {[ "cats" := Directory ["notes.txt"; ".mp4"; "clip.mp4.bak"] ]} world.

(** The connection to OBS is lost right after the mute request. *)
Definition outage_world : World :=
  with_obs (fun _ c => negb (bool_decide (c = mute_call bot true))) world.


Definition hide_fails_world : World :=
  with_obs (fun _ c => bool_decide (c = overlay_call bot false)) world.

Definition unmute_fails_world : World :=
  with_obs (fun _ c => bool_decide (c = mute_call bot false)) world.


(** The swear-list path cannot be examined. *)
Definition unreachable_list_world : World :=
  with_fs {[ "cats" := Directory ["notes.txt"; "sneeze.MP4"];
             "swears.txt" := Unreachable ]} world.

(** The recognizer fails on the first frame it is fed. *)
Definition decoder_fails_world : World :=
  {| obs_raises := obs_raises world; choice_index := choice_index world;
     fs := fs world;
     accept_waveform := fun fed => match fed with [_] => None | _ => Some true end;
     result_text := result_text world |}.

(** The state in which the loop, started on [two_frames], calls the
    trigger for the first frame. *)
Definition detected : State :=
  default (init_state obs0)
    (at_detection world bot frame1
       (set_audio_queue {| Queue.maxsize := 0; Queue.items := [frame2] |}
          two_frames)).

End Demo.

(** ** Start-up: the scene item of the overlay *)

(** What OBS answers to the three queries of [_prepare_scene_items]. The
    item query answers with the id, or raises an exception with a text. *)
Record Studio := {
  get_input_list : result (list string);
  get_current_program_scene : result string;
  get_scene_item_id : string -> string -> Z + string
}.

(** Lines 67-85: the scene name and the item id that the bot keeps. *)
Definition _prepare_scene_items (c : Config) (s : Studio) : result (string * Z) :=
  match get_input_list s with
  | Raise e => Raise e
  | Ok inputs =>
      if bool_decide (mic_source_name c ∈ inputs) then
        if bool_decide (cat_source_name c ∈ inputs) then
          match get_current_program_scene s with
          | Raise e => Raise e
          | Ok scene =>
              match get_scene_item_id s scene (cat_source_name c) with
              | inl item => Ok (scene, item)
              | inr e =>
                  Raise (SystemExit
                           ("[ERR] Source '" +:+ cat_source_name c +:+
                            "' is not in the current scene ('" +:+ scene +:+
                            "'). Add it and hide it. → " +:+ e))
              end
          end
        else Raise (SystemExit ("[ERR] Cat source '" +:+ cat_source_name c +:+
                                "' not found in OBS"))
      else Raise (SystemExit ("[ERR] Mic source '" +:+ mic_source_name c +:+
                              "' not found in OBS"))
  end.

(** ** Further vocabulary for the properties *)

(** A text without white space at either end. *)
Definition trimmed (s : list ascii) : Prop :=
  (forall c, head s = Some c -> PyStr.isspace c = false) /\
  (forall c, last s = Some c -> PyStr.isspace c = false).

Definition has_space (s : string) : Prop :=
  Exists (fun c => PyStr.isspace c = true) (PyStr.chars s).

(** The requests of the bot: on its microphone input, its media source and
    its overlay item; events that are no requests count as its own. *)
Definition own_event (b : Bot) (e : Event) : Prop :=
  match e with
  | Request c | RequestFailed c =>
      (exists v, c = mute_call b v) \/
      (exists p, c = file_call b p) \/
      (exists v, c = overlay_call b v)
  | _ => True
  end.

(** A computation whose events all satisfy [P] and that leaves alone the
    record of the frames fed to the recognizer. *)
Definition confined {A} (P : Event -> Prop) (m : M A) : Prop :=
  forall st, exists evs,
    trace (m st).1 = trace st ++ evs /\
    Forall P evs /\
    fed (m st).1 = fed st.

(** The events of a session in which nothing raises. *)
Definition full_session (b : Bot) (path : string) : list Event :=
  [Request (mute_call b true); Iterdir (cat_folder (cfg b));
   Request (file_call b path); Request (overlay_call b true);
   Printed (LogSneezing (PyStr.name path)); Sleep (cat_visible_seconds (cfg b));
   Request (overlay_call b false); Request (mute_call b false);
   Printed LogUnmuted].



(** What a run of the recognition loop adds to the trace. *)
Definition loop_events (w : World) (b : Bot) (fuel : nat) (st : State)
    : list Event :=
  drop (length (trace st)) (trace (_recognition_loop w b fuel st).1).

(** ** More of the concrete installation *)
Module Demo2.

(** A swear list with a word to normalise, blank lines and a line of
    several words. *)
Definition swear_lines : list string :=
  ["  Frak "; ""; "  "; "son of a gun"].

Definition swears_world : World :=
  Demo.with_fs {[ "swears.txt" := RegularFile (Some swear_lines) ]} Demo.world.

(** The recognizer hears nothing to censor: frames alternate between no
    result yet and the final text "Hello there". *)
Definition polite_world : World :=
  {| obs_raises := obs_raises Demo.world;
     choice_index := choice_index Demo.world;
     fs := fs Demo.world;
     accept_waveform := fun fed => Some (Nat.even (length fed));
     result_text := fun _ => Some "Hello there" |}.

(** OBS at start-up: both sources exist, the overlay is item 7 of the
    scene on air. *)
Definition studio : Studio :=
  {| get_input_list := Ok ["Desktop Audio"; "Mic/Aux"; "SneezeCat"];
     get_current_program_scene := Ok "Live";
     get_scene_item_id := fun scene source =>
       if bool_decide (scene = "Live" /\ source = "SneezeCat")
       then inl 7%Z else inr "No scene items were found" |}.


(** The bot started with the current directory as asset folder, and the
    video in it. *)
Definition here_bot : Bot :=
  {| cfg := {| mic_source_name := "Mic/Aux"; cat_source_name := "SneezeCat";
               cat_folder := "."; swear_list := None;
               cat_visible_seconds := 4 |};
     swear_words := DEFAULT_SWEAR_WORDS;
     scene_name := "Live"; cat_item_id := 7 |}.

Definition here_world : World :=
  Demo.with_fs {[ "." := Directory ["sneeze.MP4"; "notes.txt"] ]} Demo.world.


End Demo2.

(** * Properties *)

Section StrFacts.
Import PyStr.

Lemma of_chars_chars s : of_chars (chars s) = s.
Proof. apply string_of_list_ascii_of_string. Qed.

Lemma chars_of_chars l : chars (of_chars l) = l.
Proof. apply list_ascii_of_string_of_list_ascii. Qed.

Lemma isspace_lower_char c : isspace (lower_char c) = isspace c.
Proof. destruct c as [[] [] [] [] [] [] [] []]; reflexivity. Qed.

(** The equations of [split_chars]. *)
Lemma split_chars_space c s :
  isspace c = true -> split_chars (c :: s) = split_chars s.
Proof. intros H. simpl. rewrite H. reflexivity. Qed.

Lemma split_chars_last c :
  isspace c = false -> split_chars [c] = [[c]].
Proof. intros H. simpl. rewrite H. reflexivity. Qed.

Lemma split_chars_end c d s :
  isspace c = false -> isspace d = true ->
  split_chars (c :: d :: s) = [c] :: split_chars (d :: s).
Proof. intros Hc Hd. simpl. rewrite Hc, Hd. reflexivity. Qed.

Lemma split_chars_more c d s :
  isspace c = false -> isspace d = false ->
  split_chars (c :: d :: s) =
  match split_chars (d :: s) with
  | t :: ts => (c :: t) :: ts
  | [] => [[c]]
  end.
Proof. intros Hc Hd. simpl. rewrite Hc, Hd. reflexivity. Qed.

Lemma split_chars_nonspace_cons c s :
  isspace c = false -> split_chars (c :: s) <> [].
Proof.
  intros Hc. destruct s as [|d s].
  - rewrite split_chars_last by exact Hc. discriminate.
  - destruct (isspace d) eqn:Hd.
    + rewrite split_chars_end by assumption. discriminate.
    + rewrite split_chars_more by assumption.
      destruct (split_chars (d :: s)); discriminate.
Qed.

Lemma split_chars_lower s :
  split_chars (map lower_char s) = map (map lower_char) (split_chars s).
Proof.
  induction s as [|c s IH]; [reflexivity|].
  destruct (isspace c) eqn:Hc.
  - rewrite (split_chars_space c) by exact Hc.
    cbn [map]. rewrite split_chars_space by (rewrite isspace_lower_char; exact Hc).
    exact IH.
  - destruct s as [|d s].
    + rewrite split_chars_last by exact Hc. cbn [map].
      rewrite split_chars_last by (rewrite isspace_lower_char; exact Hc).
      reflexivity.
    + cbn [map] in *. destruct (isspace d) eqn:Hd.
      * rewrite (split_chars_end c d) by assumption.
        rewrite split_chars_end by (rewrite isspace_lower_char; assumption).
        rewrite IH. reflexivity.
      * rewrite (split_chars_more c d) by assumption.
        rewrite split_chars_more by (rewrite isspace_lower_char; assumption).
        rewrite IH.
        destruct (split_chars (d :: s)); reflexivity.
Qed.

(** A run without white space that ends the text or is followed by white
    space comes out of [split_chars] as the first token. *)
Lemma split_chars_run t post :
  t <> [] ->
  Forall (fun c => isspace c = false) t ->
  (post = [] \/ exists c, head post = Some c /\ isspace c = true) ->
  split_chars (t ++ post) = t :: split_chars post.
Proof.
  intros Hne Hall Hpost.
  induction t as [|c t IH]; [congruence|].
  apply Forall_cons in Hall as [Hc Hall].
  destruct t as [|c' t].
  - destruct post as [|d post].
    + simpl app. rewrite split_chars_last by exact Hc. reflexivity.
    + destruct Hpost as [|[x [Hx Hsp]]]; [discriminate|].
      simpl in Hx. injection Hx as ->.
      simpl app. rewrite split_chars_end by assumption. reflexivity.
  - assert (Hc' : isspace c' = false) by (apply Forall_cons in Hall; tauto).
    simpl app in *. rewrite split_chars_more by assumption.
    rewrite IH by (auto; discriminate). reflexivity.
Qed.

(** A prefix that ends in white space splits off. *)
Lemma split_chars_app pre rest :
  (pre = [] \/ exists c, last pre = Some c /\ isspace c = true) ->
  split_chars (pre ++ rest) = split_chars pre ++ split_chars rest.
Proof.
  intros Hpre.
  induction pre as [|c pre IH]; [reflexivity|].
  destruct Hpre as [|[x [Hx Hsp]]]; [discriminate|].
  destruct pre as [|d pre].
  - simpl in Hx. injection Hx as ->.
    change ([x] ++ rest) with (x :: rest).
    rewrite (split_chars_space x rest) by exact Hsp.
    rewrite (split_chars_space x []) by exact Hsp.
    reflexivity.
  - assert (Hl : last (d :: pre) = Some x) by (rewrite last_cons_cons in Hx; exact Hx).
    specialize (IH (or_intror (ex_intro _ x (conj Hl Hsp)))).
    rewrite <- !app_comm_cons in *.
    destruct (isspace c) eqn:Hc.
    + rewrite !(split_chars_space c) by exact Hc. exact IH.
    + destruct (isspace d) eqn:Hd.
      * rewrite !(split_chars_end c d) by assumption. rewrite IH. reflexivity.
      * rewrite !(split_chars_more c d) by assumption. rewrite IH.
        pose proof (split_chars_nonspace_cons d pre Hd) as Hn.
        destruct (split_chars (d :: pre)); [congruence|reflexivity].
Qed.

Lemma token_chars_split t s : token_chars t s -> t ∈ split_chars s.
Proof.
  intros (pre & post & -> & Hne & Hall & Hpre & Hpost).
  rewrite split_chars_app by exact Hpre.
  rewrite split_chars_run by assumption.
  apply elem_of_app. right. apply list_elem_of_here.
Qed.

Lemma last_cons_ne {A} (x : A) l : l <> [] -> last (x :: l) = last l.
Proof. destruct l; [congruence|reflexivity]. Qed.

Lemma token_chars_space c t s :
  isspace c = true -> token_chars t s -> token_chars t (c :: s).
Proof.
  intros Hc (pre & post & -> & Hne & Hall & Hpre & Hpost).
  exists (c :: pre), post. repeat split; try assumption.
  right. destruct Hpre as [->|[x [Hx Hsp]]].
  - exists c. split; [reflexivity|exact Hc].
  - exists x. split; [|exact Hsp].
    rewrite last_cons_ne; [exact Hx|]. intros ->. discriminate.
Qed.

(** A token of what follows a run is a token of the whole. *)
Lemma token_chars_after t0 t post :
  t0 <> [] ->
  (post = [] \/ exists c, head post = Some c /\ isspace c = true) ->
  token_chars t post -> token_chars t (t0 ++ post).
Proof.
  intros Hne0 Hpost (pre & post' & E & Hne & Hall & Hpre & Hpost').
  exists (t0 ++ pre), post'. repeat split; try assumption.
  - rewrite E, <- app_assoc. reflexivity.
  - right. destruct Hpre as [->|[x [Hx Hsp]]].
    + exfalso. simpl in E. destruct t as [|a t]; [congruence|].
      apply Forall_cons in Hall as [Ha _].
      destruct Hpost as [->|[x [Hx Hsp]]]; [discriminate|].
      rewrite E in Hx. simpl in Hx. injection Hx as ->. congruence.
    + exists x. split; [|exact Hsp].
      rewrite last_app, Hx. reflexivity.
Qed.

(** The text that starts without white space: its first token is a prefix. *)
Lemma split_chars_head d s :
  isspace d = false ->
  exists t post,
    d :: s = t ++ post /\ t <> [] /\
    Forall (fun c => isspace c = false) t /\
    (post = [] \/ exists c, head post = Some c /\ isspace c = true).
Proof.
  revert d. induction s as [|e s IH]; intros d Hd.
  - exists [d], []. repeat split; auto; discriminate.
  - destruct (isspace e) eqn:He.
    + exists [d], (e :: s). repeat split; auto; try discriminate.
      right. exists e. split; [reflexivity|exact He].
    + destruct (IH e He) as (t & post & Es & Hne & Hall & Hpost).
      exists (d :: t), post. repeat split; auto; try discriminate.
      simpl. f_equal. exact Es.
Qed.

Lemma split_chars_token_len n :
  forall s, (length s <= n)%nat -> forall t, t ∈ split_chars s -> token_chars t s.
Proof.
  induction n as [|n IH]; intros s Hlen t Ht.
  - destruct s; [|simpl in Hlen; lia].
    simpl in Ht. apply elem_of_nil in Ht. contradiction.
  - destruct s as [|c s].
    { simpl in Ht. apply elem_of_nil in Ht. contradiction. }
    simpl in Hlen.
    destruct (isspace c) eqn:Hc.
    + rewrite split_chars_space in Ht by exact Hc.
      apply token_chars_space; [exact Hc|].
      apply IH; [lia|exact Ht].
    + destruct (split_chars_head c s Hc) as (t0 & post & Es & Hne & Hall & Hpost).
      rewrite Es in Ht |- *.
      rewrite split_chars_run in Ht by assumption.
      apply elem_of_cons in Ht as [->|Ht].
      * exists [], post. repeat split; auto.
      * apply token_chars_after; try assumption.
        apply IH; [|exact Ht].
        apply (f_equal (@length ascii)) in Es.
        rewrite length_app in Es. simpl in Es.
        destruct t0; [congruence|]. simpl in Es. lia.
Qed.

Lemma split_chars_spec t s : t ∈ split_chars s <-> token_chars t s.
Proof.
  split.
  - apply (split_chars_token_len (length s)). lia.
  - apply token_chars_split.
Qed.

Lemma split_spec t text : t ∈ split text <-> is_token t text.
Proof.
  unfold split, is_token. rewrite <- split_chars_spec.
  rewrite list_elem_of_fmap. split.
  - intros (tc & -> & Hin). rewrite chars_of_chars. exact Hin.
  - intros Hin. exists (chars t). split; [|exact Hin].
    symmetry. apply of_chars_chars.
Qed.

Lemma split_lower text : split (lower text) = map lower (split text).
Proof.
  unfold split, lower. rewrite chars_of_chars, split_chars_lower.
  rewrite !map_map. apply map_ext. intros tc.
  rewrite chars_of_chars. reflexivity.
Qed.

End StrFacts.

(** ** Requests, the cleanup and the trigger *)

Section TriggerFacts.

Context (w : World) (b : Bot).

Local Abbreviation mute_on := (mute_call b true).
Local Abbreviation mute_off := (mute_call b false).
Local Abbreviation show := (overlay_call b true).
Local Abbreviation hide := (overlay_call b false).

Lemma trigger_unfold st :
  _trigger_censor w b st =
  if silence st then (st, Ok tt)
  else try_finally (body w b) (cleanup w b) (set_silence true st).
Proof. reflexivity. Qed.

Lemma ws_returns c st :
  obs_raises w (trace st) c = false -> ws w c st = (emit (Request c) st, Ok tt).
Proof. intros H. unfold ws. rewrite H. reflexivity. Qed.

Lemma ws_raises c st :
  obs_raises w (trace st) c = true ->
  ws w c st = (emit (RequestFailed c) st, Raise (OBSError c)).
Proof. intros H. unfold ws. rewrite H. reflexivity. Qed.

Lemma bind_ok {A B} (m : M A) (f : A -> M B) st st' a :
  m st = (st', Ok a) -> (m ≫= f) st = f a st'.
Proof. intros H. unfold mbind, M_bind. rewrite H. reflexivity. Qed.

Lemma bind_raise {A B} (m : M A) (f : A -> M B) st st' e :
  m st = (st', Raise e) -> (m ≫= f) st = (st', Raise e).
Proof. intros H. unfold mbind, M_bind. rewrite H. reflexivity. Qed.

Lemma cleanup_returns st :
  obs_raises w (trace st) hide = false ->
  obs_raises w (trace st ++ [Request hide]) mute_off = false ->
  cleanup w b st = (reverted b st, Ok tt).
Proof.
  intros Hh Hm. unfold cleanup.
  rewrite (bind_ok _ _ _ _ _ (ws_returns _ _ Hh)).
  rewrite (bind_ok _ _ _ _ _ (ws_returns _ (emit (Request hide) st) Hm)).
  reflexivity.
Qed.

Lemma cleanup_hide_raises st :
  obs_raises w (trace st) hide = true ->
  cleanup w b st = (emit (RequestFailed hide) st, Raise (OBSError hide)).
Proof.
  intros Hh. unfold cleanup.
  rewrite (bind_raise _ _ _ _ _ (ws_raises _ _ Hh)). reflexivity.
Qed.

Lemma cleanup_unmute_raises st :
  obs_raises w (trace st) hide = false ->
  obs_raises w (trace st ++ [Request hide]) mute_off = true ->
  cleanup w b st =
  (emit (RequestFailed mute_off) (emit (Request hide) st),
   Raise (OBSError mute_off)).
Proof.
  intros Hh Hm. unfold cleanup.
  rewrite (bind_ok _ _ _ _ _ (ws_returns _ _ Hh)).
  rewrite (bind_raise _ _ _ _ _ (ws_raises _ (emit (Request hide) st) Hm)).
  reflexivity.
Qed.

Lemma reverted_silence st : silence (reverted b st) = false.
Proof. reflexivity. Qed.

Lemma reverted_mic st : mic_muted b (obs (reverted b st)) = Some false.
Proof. unfold mic_muted. simpl. apply lookup_insert_eq. Qed.

Lemma reverted_overlay st : overlay_visible b (obs (reverted b st)) = Some false.
Proof. unfold overlay_visible. simpl. apply lookup_insert_eq. Qed.


(** *** The trace only grows, and OBS follows it *)

Lemma grows_ret {A} (a : A) : grows (mret a).
Proof. intros st. exists []. simpl. rewrite app_nil_r. auto. Qed.

Lemma grows_raise {A} e : grows (@raise A e).
Proof. intros st. exists []. simpl. rewrite app_nil_r. auto. Qed.

Lemma grows_emit e : grows (modify (emit e)).
Proof. intros st. exists [e]. simpl. auto. Qed.

Lemma grows_set_silence v : grows (modify (set_silence v)).
Proof. intros st. exists []. simpl. rewrite app_nil_r. auto. Qed.

Lemma grows_ws c : grows (ws w c).
Proof.
  intros st. unfold ws. destruct (obs_raises w (trace st) c).
  - exists [RequestFailed c]. simpl. auto.
  - exists [Request c]. simpl. auto.
Qed.

Lemma replay_app evs1 evs2 o : replay (evs1 ++ evs2) o = replay evs2 (replay evs1 o).
Proof. apply fold_left_app. Qed.

Lemma grows_bind {A B} (m : M A) (f : A -> M B) :
  grows m -> (forall a, grows (f a)) -> grows (m ≫= f).
Proof.
  intros Hm Hf st. unfold mbind, M_bind.
  destruct (Hm st) as (evs1 & Ht & Ho & Hq & Hs).
  destruct (m st) as [st1 [a|e]]; simpl in *.
  - destruct (Hf a st1) as (evs2 & Ht2 & Ho2 & Hq2 & Hs2).
    exists (evs1 ++ evs2).
    rewrite Ht2, Ho2, Hq2, Hs2, Ht, Ho, Hq, Hs, replay_app, app_assoc. auto.
  - exists evs1. auto.
Qed.

Lemma grows_try_finally {A} (m : M A) (fin : M unit) :
  grows m -> grows fin -> grows (try_finally m fin).
Proof.
  intros Hm Hf st. unfold try_finally.
  destruct (Hm st) as (evs1 & Ht & Ho & Hq & Hs).
  destruct (m st) as [st1 r]; simpl in *.
  destruct (Hf st1) as (evs2 & Ht2 & Ho2 & Hq2 & Hs2).
  exists (evs1 ++ evs2).
  destruct (fin st1) as [st2 [[]|e]]; simpl in *;
    rewrite Ht2, Ho2, Hq2, Hs2, Ht, Ho, Hq, Hs, replay_app, app_assoc; auto.
Qed.

Lemma grows_time_sleep s : grows (time_sleep s).
Proof.
  unfold time_sleep. destruct (sleep_overflows s); [apply grows_raise|].
  destruct (s <? 0)%Z; [apply grows_raise|apply grows_emit].
Qed.

Lemma grows_pick : grows (_pick_cat_video w b).
Proof.
  unfold _pick_cat_video. apply grows_bind; [apply grows_emit|].
  intros _. destruct (fs w !! cat_folder (cfg b)) as [[?| |names| ]|];
    try apply grows_raise.
  destruct (map _ _); [apply grows_raise|].
  intros st. exists []. simpl. rewrite app_nil_r. auto.
Qed.

Lemma grows_body : grows (body w b).
Proof.
  unfold body, _set_cat_source_file, print.
  apply grows_bind; [apply grows_ws|intros _].
  apply grows_bind; [apply grows_pick|intros p].
  apply grows_bind; [apply grows_ws|intros _].
  apply grows_bind; [apply grows_ws|intros _].
  apply grows_bind; [apply grows_emit|intros _].
  apply grows_time_sleep.
Qed.

Lemma grows_cleanup : grows (cleanup w b).
Proof.
  unfold cleanup, print.
  apply grows_bind; [apply grows_ws|intros _].
  apply grows_bind; [apply grows_ws|intros _].
  apply grows_bind; [apply grows_set_silence|intros _].
  apply grows_emit.
Qed.

Lemma grows_trigger : grows (_trigger_censor w b).
Proof.
  intros st. rewrite trigger_unfold. destruct (silence st).
  - exists []. simpl. rewrite app_nil_r. auto.
  - apply (grows_try_finally _ _ grows_body grows_cleanup (set_silence true st)).
Qed.

(** What the trigger leaves is what it found plus the events of the
    session, and OBS is what those events make of it. *)
Lemma trigger_trace st :
  trace (_trigger_censor w b st).1 = trace st ++ session_events w b st.
Proof.
  unfold session_events.
  destruct (grows_trigger st) as (evs & Ht & _).
  rewrite Ht, drop_app_length. reflexivity.
Qed.

Lemma trigger_obs st :
  obs (_trigger_censor w b st).1 = replay (session_events w b st) (obs st).
Proof.
  unfold session_events.
  destruct (grows_trigger st) as (evs & Ht & Ho & _).
  rewrite Ht, drop_app_length. exact Ho.
Qed.

Lemma session_events_eq st evs :
  trace (_trigger_censor w b st).1 = trace st ++ evs ->
  session_events w b st = evs.
Proof. intros H. unfold session_events. rewrite H. apply drop_app_length. Qed.

End TriggerFacts.

Section PickFacts.

Context (w : World) (b : Bot).

Lemma pick_empty st :
  videos w b = Some [] ->
  _pick_cat_video w b st =
  (emit (Iterdir (cat_folder (cfg b))) st,
   Raise (SystemExit "[ERR] No video files found in cat folder")).
Proof.
  unfold videos, _pick_cat_video. intros H.
  destruct (fs w !! cat_folder (cfg b)) as [[?| |names| ]|]; try discriminate.
  injection H as H. rewrite H. reflexivity.
Qed.

Lemma pick_some st v vs :
  videos w b = Some (v :: vs) ->
  exists path,
    path ∈ v :: vs /\
    _pick_cat_video w b st = (emit (Iterdir (cat_folder (cfg b))) st, Ok path).
Proof.
  unfold videos, _pick_cat_video. intros H.
  destruct (fs w !! cat_folder (cfg b)) as [[?| |names| ]|]; try discriminate.
  injection H as H. rewrite H.
  eexists. split; [|reflexivity].
  apply list_elem_of_In, nth_In, Nat.mod_upper_bound. discriminate.
Qed.

Lemma pick_missing st :
  videos w b = None ->
  _pick_cat_video w b st =
  (emit (Iterdir (cat_folder (cfg b))) st, Raise (OSError (cat_folder (cfg b)))).
Proof.
  unfold videos, _pick_cat_video. intros H.
  destruct (fs w !! cat_folder (cfg b)) as [[?| |names| ]|]; try discriminate;
    reflexivity.
Qed.

End PickFacts.

Section Revert.

Context (w : World) (b : Bot).

(** C1, as amended. When the mute request has returned and a later step of
    the [try] block raises, the cleanup still runs; provided its own two
    requests return, it ends the session with the overlay hidden, the
    microphone live and the flag cleared, and the exception of the failed
    step goes on to the caller. *)
Theorem revert_guarantee (st : State) (e : exn) :
  silence st = false ->
  obs_raises w (trace st) (mute_call b true) = false ->
  (forall tr, obs_raises w tr (overlay_call b false) = false) ->
  (forall tr, obs_raises w tr (mute_call b false) = false) ->
  (body w b (set_silence true st)).2 = Raise e ->
  let st' := (_trigger_censor w b st).1 in
  (_trigger_censor w b st).2 = Raise e /\
  (exists evs, session_events w b st =
               evs ++ [Request (overlay_call b false);
                       Request (mute_call b false); Printed LogUnmuted]) /\
  overlay_visible b (obs st') = Some false /\
  mic_muted b (obs st') = Some false /\
  silence st' = false.
Proof.
  intros Hs _ Hh Hm Hbody. cbv zeta.
  rewrite (trigger_unfold w b), Hs. unfold try_finally.
  destruct (grows_body w b (set_silence true st)) as (evs & Ht & _).
  destruct (body w b (set_silence true st)) as [st1 r] eqn:Eb.
  simpl in Hbody, Ht. subst r.
  assert (Et : _trigger_censor w b st = (reverted b st1, Raise e)).
  { rewrite (trigger_unfold w b), Hs. unfold try_finally.
    rewrite Eb, (cleanup_returns w b) by auto. reflexivity. }
  rewrite (cleanup_returns w b) by auto. cbn [fst snd].
  split; [reflexivity|]. split.
  - exists evs. apply session_events_eq. rewrite Et. simpl.
    rewrite Ht, <- !app_assoc. reflexivity.
  - split; [apply reverted_overlay|].
    split; [apply reverted_mic|apply reverted_silence].
Qed.

End Revert.

Lemma revert_guarantee_witness :
  silence (init_state Demo.obs0) = false /\
  obs_raises Demo.empty_folder_world (trace (init_state Demo.obs0))
    (mute_call Demo.bot true) = false /\
  (body Demo.empty_folder_world Demo.bot
     (set_silence true (init_state Demo.obs0))).2
  = Raise (SystemExit "[ERR] No video files found in cat folder") /\
  let st' := (_trigger_censor Demo.empty_folder_world Demo.bot
                (init_state Demo.obs0)).1 in
  (_trigger_censor Demo.empty_folder_world Demo.bot (init_state Demo.obs0)).2
  = Raise (SystemExit "[ERR] No video files found in cat folder") /\
  overlay_visible Demo.bot (obs st') = Some false /\
  mic_muted Demo.bot (obs st') = Some false /\
  silence st' = false.
Proof.
  assert (Hb : (body Demo.empty_folder_world Demo.bot
                  (set_silence true (init_state Demo.obs0))).2
               = Raise (SystemExit "[ERR] No video files found in cat folder"))
    by (vm_compute; reflexivity).
  destruct (revert_guarantee Demo.empty_folder_world Demo.bot
              (init_state Demo.obs0)
              (SystemExit "[ERR] No video files found in cat folder"))
    as (H1 & _ & H2); try reflexivity; try exact Hb.
  split; [reflexivity|]. split; [reflexivity|]. split; [exact Hb|].
  exact (conj H1 H2).
Defined.

(** C1, as stated, fails when OBS stops answering after the mute request:
    the file request raises, the hide request of the cleanup raises as well,
    and the session ends muted with the flag still set. *)
Lemma revert_fails_when_obs_goes_away :
  ~ revert_as_specified Demo.outage_world Demo.bot (init_state Demo.obs0).
Proof.
  intros H.
  specialize (H eq_refl eq_refl (OBSError (file_call Demo.bot "cats/sneeze.MP4")) eq_refl).
  destruct H as (_ & _ & H). vm_compute in H. discriminate.
Qed.

(** ** Matching on the text (C7) *)

Lemma bad_words_spec (text : string) (ws : gset string) (w : string) :
  w ∈ bad_words text ws <-> w ∈ ws /\ is_token w text.
Proof.
  unfold bad_words.
  rewrite elem_of_intersection, elem_of_list_to_set, split_spec. tauto.
Qed.

Lemma detect_spec (text : string) (ws : gset string) (w : string) :
  w ∈ detect text ws <->
  w ∈ ws /\ exists t, is_token t text /\ PyStr.lower t = w.
Proof.
  unfold detect, bad_words.
  rewrite elem_of_intersection, elem_of_list_to_set, split_lower.
  rewrite list_elem_of_fmap. setoid_rewrite split_spec.
  split.
  - intros ((t & -> & Ht) & Hw). split; [exact Hw|]. exists t. auto.
  - intros (Hw & t & Ht & <-). split; [|exact Hw]. exists t. auto.
Qed.

(** A text that is one token long has that token and no other. *)
Lemma is_token_single (t long : string) :
  Forall (fun c => PyStr.isspace c = false) (PyStr.chars long) ->
  is_token t long -> t = long.
Proof.
  intros Hlong (pre & post & E & Hne & _ & Hpre & Hpost).
  assert (Hpre' : pre = []).
  { destruct Hpre as [|(c & Hc & Hsp)]; [assumption|].
    exfalso. rewrite E in Hlong.
    apply Forall_app in Hlong as [Hp _].
    apply last_Some in Hc as (l' & ->).
    apply Forall_app in Hp as [_ Hp].
    apply Forall_cons in Hp as [Hp _]. congruence. }
  assert (Hpost' : post = []).
  { destruct Hpost as [|(c & Hc & Hsp)]; [assumption|].
    exfalso. rewrite E in Hlong.
    apply Forall_app in Hlong as [_ Hp].
    apply Forall_app in Hp as [_ Hp].
    destruct post as [|d post]; [discriminate|].
    simpl in Hc. injection Hc as ->.
    apply Forall_cons in Hp as [Hp _]. congruence. }
  subst. simpl in E. rewrite app_nil_r in E.
  rewrite <- (of_chars_chars t), <- (of_chars_chars long). congruence.
Qed.

(** C7. A word is among the matches exactly when it is in the word set and
    is the lower-cased form of a white-space delimited token of the text; a
    word that only occurs inside a longer token is not matched (the text
    "shellfish" does not match "hell"); and the matches are a function of
    the text and the word set alone, contained in the word set. *)
Theorem detect_exact_token :
  (forall (text : string) (ws : gset string) (w : string),
      w ∈ detect text ws <->
      w ∈ ws /\ exists t, is_token t text /\ PyStr.lower t = w) /\
  (forall (long : string) (ws : gset string) (w : string),
      Forall (fun c => PyStr.isspace c = false) (PyStr.chars long) ->
      PyStr.lower long <> w ->
      w ∉ detect long ws) /\
  detect "shellfish" {[ "hell" ]} = ∅ /\
  detect "SHELLFISH in Hell" {[ "hell" ]} = {[ "hell" ]} /\
  (forall (text : string) (ws : gset string), detect text ws ⊆ ws).
Proof.
  split; [exact detect_spec|].
  split.
  { intros long ws w Hlong Hne Hin.
    apply detect_spec in Hin as (_ & t & Ht & Hl).
    apply is_token_single in Ht; [|exact Hlong]. congruence. }
  split; [vm_compute; reflexivity|].
  split; [vm_compute; reflexivity|].
  intros text ws w Hin. apply detect_spec in Hin. tauto.
Qed.

Lemma detect_exact_token_witness :
  ("hell" ∉ detect "shellfish" DEFAULT_SWEAR_WORDS) /\
  "hell" ∈ detect "oh HELL no" DEFAULT_SWEAR_WORDS.
Proof.
  destruct detect_exact_token as (Hiff & Hlong & _).
  split.
  - apply Hlong; [|vm_compute; discriminate].
    vm_compute. repeat constructor.
  - apply Hiff. split; [vm_compute; set_solver|].
    exists "HELL". split; [|reflexivity].
    exists (PyStr.chars "oh "), (PyStr.chars " no").
    repeat split; try discriminate.
    + repeat constructor.
    + right. exists " "%char. split; reflexivity.
    + right. exists " "%char. split; reflexivity.
Defined.

(** ** Word-list loading (C10) *)



(** C10, as stated, fails on a path that cannot be examined: it is no
    existing regular file, and loading raises instead of returning the
    default set. *)
Lemma unreachable_swear_list_raises :
  ~ missing_list_as_specified Demo.unreachable_list_world Demo.config
      (init_state Demo.obs0).
Proof.
  intros H.
  specialize (H "swears.txt" eq_refl).
  assert (Hf : fs Demo.unreachable_list_world !! "swears.txt" = Some Unreachable)
    by (vm_compute; reflexivity).
  unfold _load_swear_words in H. cbn [swear_list Demo.config] in H.
  rewrite Hf in H.
  assert (Hr : @raise (gset string) (OSError "swears.txt") (init_state Demo.obs0)
               = (init_state Demo.obs0, Ok DEFAULT_SWEAR_WORDS)).
  { apply H; [intros text|]; discriminate. }
  discriminate Hr.
Qed.

(** ** The audio queue (C3) *)

Lemma capture_appends (blocks : list bytes) :
  forall st,
    (Queue.maxsize (audio_queue st) <= 0)%Z ->
    capture blocks st =
    Some (set_audio_queue
            {| Queue.maxsize := Queue.maxsize (audio_queue st);
               Queue.items := Queue.items (audio_queue st) ++ blocks |} st).
Proof.
  induction blocks as [|x blocks IH]; intros st Hm.
  - simpl. rewrite app_nil_r. destruct st as [? ? [? ?] ? ? ?]. reflexivity.
  - simpl. unfold _audio_callback, Queue.put, Queue.full.
    replace (0 <? Queue.maxsize (audio_queue st))%Z with false
      by (symmetry; apply Z.ltb_ge; exact Hm).
    simpl. rewrite IH by exact Hm. simpl.
    rewrite <- app_assoc. reflexivity.
Qed.

(** C3, as amended. The queue is created without a capacity: whatever the
    capture side pushes, no [put] waits, no frame is dropped, the frames
    queue up in the order captured and the queue is never full. *)
Theorem queue_unbounded (o : Obs) (blocks : list bytes) :
  exists st',
    capture blocks (init_state o) = Some st' /\
    Queue.items (audio_queue st') = blocks /\
    Queue.qsize (audio_queue st') = Z.of_nat (length blocks) /\
    Queue.full (audio_queue st') = false.
Proof.
  eexists. split; [apply capture_appends; simpl; lia|].
  repeat split.
Qed.

(** C3, as stated, fails: no capacity bounds the queue of the bot. *)
Lemma queue_not_bounded : ~ queue_bounded_as_specified Demo.obs0.
Proof.
  intros [cap H].
  assert (Hm : (Queue.maxsize (audio_queue (init_state Demo.obs0)) <= 0)%Z)
    by (simpl; lia).
  destruct (H _ _ (capture_appends (replicate (S (Z.to_nat cap)) Demo.frame1)
                     (init_state Demo.obs0) Hm)) as [Hle _].
  unfold Queue.qsize in Hle. simpl in Hle.
  rewrite length_replicate in Hle. lia.
Qed.

(** Three blocks into the fresh queue: all three are in, the third over
    nothing that could be called a bound. *)
Example capture_three :
  (capture [Demo.frame1; Demo.frame2; Demo.frame1] (init_state Demo.obs0)
   ≫= fun st => Some (Queue.items (audio_queue st)))
  = Some [Demo.frame1; Demo.frame2; Demo.frame1].
Proof. reflexivity. Qed.

(** ** Running one session *)

(** Symbolic execution of the trigger: split on every request and on the
    sign of the hold, simplifying in between. *)
Ltac settle :=
  unfold mbind, M_bind, mret, M_ret, modify, raise, print;
  cbn [fst snd trace silence obs emit set_silence stop_event audio_queue fed].

Ltac split_on c :=
  let E := fresh "E" in
  destruct c eqn:E;
  try solve [congruence
            | match goal with H : _ |- _ => rewrite H in E; discriminate E end].

Ltac crank :=
  repeat (settle;
          match goal with
          | |- context [obs_raises ?w ?t ?c] => split_on (obs_raises w t c)
          | |- context [sleep_overflows ?s] => split_on (sleep_overflows s)
          | |- context [(?s <? 0)%Z] => split_on (s <? 0)%Z
          | Hv : videos ?w ?b = Some (?v :: ?vs)
            |- context [_pick_cat_video ?w ?b ?X] =>
              let path := fresh "path" in
              let Hin := fresh "Hin" in
              let Hp := fresh "Hp" in
              destruct (pick_some w b X v vs Hv) as (path & Hin & Hp);
              rewrite Hp; clear Hp
          | Hv : videos ?w ?b = Some []
            |- context [_pick_cat_video ?w ?b ?X] =>
              rewrite (pick_empty w b X Hv)
          | Hv : videos ?w ?b = None
            |- context [_pick_cat_video ?w ?b ?X] =>
              rewrite (pick_missing w b X Hv)
          end);
  settle.

Ltac solve_elem :=
  repeat first [apply list_elem_of_here | apply list_elem_of_further].

Ltac unfold_session :=
  unfold try_finally, body, cleanup, _set_cat_source_file, time_sleep, ws.

Section Sessions.

Context (w : World) (b : Bot).

Local Abbreviation mute_on := (mute_call b true).
Local Abbreviation mute_off := (mute_call b false).
Local Abbreviation show := (overlay_call b true).
Local Abbreviation hide := (overlay_call b false).
Local Abbreviation folder := (cat_folder (cfg b)).

Lemma covered_muted o : mic_muted b o = Some true -> covered b o.
Proof. intros H _. exact H. Qed.

Lemma covered_hidden o : overlay_visible b o = Some false -> covered b o.
Proof. intros H H'. congruence. Qed.

(** C8. In a session that reaches the overlay step (the mute request
    returned, a video was picked and loaded), the requests are nested: mute
    on, load, show, then hide and, once hide has returned, mute off, with
    nothing in between; and from the mute request on, in every state OBS
    goes through, the overlay is not visible over a live microphone. *)
Theorem nested_order (st : State) (v : string) (vs : list string) :
  silence st = false ->
  obs_raises w (trace st) mute_on = false ->
  videos w b = Some (v :: vs) ->
  (forall tr path, obs_raises w tr (file_call b path) = false) ->
  let evs := session_events w b st in
  exists path,
    path ∈ v :: vs /\
    (requests evs = [mute_on; file_call b path; show; hide; mute_off] \/
     (RequestFailed hide ∈ evs /\
      requests evs = [mute_on; file_call b path; show; hide])) /\
    (Request show ∈ evs -> Request mute_on ∈ evs) /\
    Forall (covered b) (obs_history evs (obs st)).
Proof.
  intros Hs Hmute Hv Hfile. cbv zeta.
  assert (Hcov1 : forall o, covered b (apply_call mute_on o)).
  { intros o. apply covered_muted. unfold mic_muted. simpl.
    apply lookup_insert_eq. }
  assert (Hcov2 : forall o p, covered b (apply_call (file_call b p) (apply_call mute_on o))).
  { intros o p. apply covered_muted. unfold mic_muted. simpl.
    apply lookup_insert_eq. }
  assert (Hcov3 : forall o p, covered b (apply_call show (apply_call (file_call b p) (apply_call mute_on o)))).
  { intros o p. apply covered_muted. unfold mic_muted. simpl.
    apply lookup_insert_eq. }
  assert (Hcov4 : forall o, covered b (apply_call hide o)).
  { intros o. apply covered_hidden. unfold overlay_visible. simpl.
    apply lookup_insert_eq. }
  assert (Hcov5 : forall o, covered b (apply_call mute_off (apply_call hide o))).
  { intros o. apply covered_hidden. unfold overlay_visible. simpl.
    apply lookup_insert_eq. }
  assert (E : exists path evs,
             path ∈ v :: vs /\
             trace (_trigger_censor w b st).1 = trace st ++ evs /\
             (requests evs = [mute_on; file_call b path; show; hide; mute_off] \/
              (RequestFailed hide ∈ evs /\
               requests evs = [mute_on; file_call b path; show; hide])) /\
             (Request show ∈ evs -> Request mute_on ∈ evs) /\
             Forall (covered b) (obs_history evs (obs st))).
  { rewrite (trigger_unfold w b), Hs. unfold_session.
    unfold file_call in Hfile, Hcov2, Hcov3. crank.
    all: rewrite <- ?app_assoc; cbn [app];
      match goal with Hin : ?p ∈ _ |- _ => exists p end; eexists;
      (split; [assumption|]); (split; [reflexivity|]).
    all: split; [first [left; reflexivity
                       | right; split; [solve_elem|reflexivity]]|].
    all: split; [intros _; solve_elem|].
    all: cbn [obs_history apply_event set_silence obs];
      repeat (apply Forall_cons; split); auto using Forall_nil. }
  destruct E as (path & evs & Hin & Ht & H).
  exists path. split; [exact Hin|].
  rewrite (session_events_eq w b st evs Ht). exact H.
Qed.

End Sessions.

(** ** The recognition loop *)

Section Loop.

Context (w : World) (b : Bot).

Lemma bad_words_empty_text ws : bad_words "" ws = ∅.
Proof. unfold bad_words. simpl. apply (left_absorb_L ∅ (∩)). Qed.

Lemma process_frame_at_detection data st st1 :
  at_detection w b data st = Some st1 ->
  process_frame w b data st = _trigger_censor w b st1.
Proof.
  unfold at_detection, process_frame, AcceptWaveform, Result. settle.
  cbn [set_fed fed].
  destruct (accept_waveform w (fed st ++ [data])) as [[|]|]; try discriminate.
  cbn [set_fed fed]. fold (detect (default "" (result_text w (fed st ++ [data])))
                             (swear_words b)).
  destruct (bool_decide _) eqn:Eb; [discriminate|].
  intros [= <-].
  destruct (PyStr.truthy _) eqn:Et; [reflexivity|].
  exfalso. apply bool_decide_eq_false in Eb. apply Eb.
  unfold detect.
  destruct (PyStr.lower _); [apply bad_words_empty_text|discriminate].
Qed.

(** An exception that leaves [process_frame] leaves the loop: nothing
    catches it, and the frames behind stay in the queue. *)
Lemma loop_propagates fuel st data q st' e :
  stop_event st = false ->
  Queue.get (audio_queue st) = Some (data, q) ->
  process_frame w b data (set_audio_queue q st) = (st', Raise e) ->
  _recognition_loop w b (S fuel) st = (st', Raise e).
Proof.
  intros Hs Hg Hp. cbn [_recognition_loop]. rewrite Hs, Hg.
  unfold mbind, M_bind. rewrite Hp. reflexivity.
Qed.

Lemma loop_detection_raises fuel st data q st1 e :
  stop_event st = false ->
  Queue.get (audio_queue st) = Some (data, q) ->
  at_detection w b data (set_audio_queue q st) = Some st1 ->
  (_trigger_censor w b st1).2 = Raise e ->
  _recognition_loop w b (S fuel) st = ((_trigger_censor w b st1).1, Raise e) /\
  audio_queue (_trigger_censor w b st1).1 = q.
Proof.
  intros Hs Hg Hd Hr. split.
  - apply loop_propagates with data q; try assumption.
    rewrite (process_frame_at_detection _ _ _ Hd).
    destruct (_trigger_censor w b st1) as [st' r]. simpl in *. congruence.
  - destruct (grows_trigger w b st1) as (evs & _ & _ & Hq & _).
    rewrite Hq. unfold at_detection in Hd.
    destruct (accept_waveform _ _) as [[|]|]; try discriminate.
    destruct (bool_decide _); [discriminate|].
    injection Hd as <-. reflexivity.
Qed.

(** C9, as amended. An exception of the recognizer on a frame is not
    caught: the loop ends with it right there, whatever fuel it has left;
    nothing is printed, and the frames behind stay in the queue,
    unprocessed. *)
Theorem decoder_failure_ends_loop (fuel : nat) (st : State) (data : bytes)
    (q : Queue.t) :
  stop_event st = false ->
  Queue.get (audio_queue st) = Some (data, q) ->
  accept_waveform w (fed st ++ [data]) = None ->
  let st' := (_recognition_loop w b (S fuel) st).1 in
  (_recognition_loop w b (S fuel) st).2 = Raise VoskError /\
  trace st' = trace st /\
  audio_queue st' = q /\
  fed st' = fed st ++ [data].
Proof.
  intros Hs Hg Ha. cbv zeta.
  rewrite (loop_propagates fuel st data q
             (set_fed (fed st ++ [data]) (set_audio_queue q st)) VoskError);
    auto.
  unfold process_frame, AcceptWaveform. settle. cbn [set_fed fed set_audio_queue].
  rewrite Ha. reflexivity.
Qed.

End Loop.

Lemma decoder_failure_ends_loop_witness :
  stop_event Demo.two_frames = false /\
  (_recognition_loop Demo.decoder_fails_world Demo.bot 5 Demo.two_frames).2
  = Raise VoskError /\
  Queue.items
    (audio_queue
       (_recognition_loop Demo.decoder_fails_world Demo.bot 5 Demo.two_frames).1)
  = [Demo.frame2].
Proof.
  destruct (decoder_failure_ends_loop Demo.decoder_fails_world Demo.bot 4
              Demo.two_frames Demo.frame1
              {| Queue.maxsize := 0; Queue.items := [Demo.frame2] |})
    as (Hr & _ & Hq & _); try reflexivity.
  split; [reflexivity|]. split; [exact Hr|]. rewrite Hq. reflexivity.
Defined.

(** C9, as stated, fails: the recognizer raises on the first of two queued
    frames, and the loop ends there instead of going on to the second. *)
Lemma decoder_failure_not_skipped :
  ~ decoder_failure_as_specified Demo.decoder_fails_world Demo.bot 5
      Demo.two_frames.
Proof.
  unfold decoder_failure_as_specified.
  rewrite (loop_propagates Demo.decoder_fails_world Demo.bot 4 Demo.two_frames
             Demo.frame1 {| Queue.maxsize := 0; Queue.items := [Demo.frame2] |}
             (set_fed [Demo.frame1]
                (set_audio_queue
                   {| Queue.maxsize := 0; Queue.items := [Demo.frame2] |}
                   Demo.two_frames))
             VoskError) by reflexivity.
  intros (H & _). discriminate.
Qed.

(** ** Single flight, and sessions that go wrong *)

Ltac elem_inv H :=
  repeat (apply elem_of_cons in H as [H|H]; [try discriminate H|]);
  try (apply elem_of_nil in H; contradiction).

Section Faults.

Context (w : World) (b : Bot).

Local Abbreviation mute_on := (mute_call b true).
Local Abbreviation mute_off := (mute_call b false).
Local Abbreviation show := (overlay_call b true).
Local Abbreviation hide := (overlay_call b false).
Local Abbreviation folder := (cat_folder (cfg b)).


Lemma keeps_ret {A} (a : A) : keeps (mret a).
Proof. intros s Hs. exact Hs. Qed.














(** C6, as amended. A hide or mute-off request that raises inside the
    cleanup is neither caught nor logged: it is the last event of the
    session, so the rest of the cleanup is skipped (after a failed hide no
    mute-off is requested, the line of the cleanup is not printed) and the
    flag stays set, which turns every later trigger into a no-op; the
    exception leaves the trigger and, from there, the recognition loop,
    which processes no further frame. *)
Theorem cleanup_failure_propagates (st : State) (c : Call) :
  silence st = false ->
  c = hide \/ c = mute_off ->
  RequestFailed c ∈ session_events w b st ->
  let st' := (_trigger_censor w b st).1 in
  (_trigger_censor w b st).2 = Raise (OBSError c) /\
  (exists pre, session_events w b st = pre ++ [RequestFailed c]) /\
  (c = hide -> count_event (is_mute false) (session_events w b st) = 0%nat) /\
  silence st' = true /\
  _trigger_censor w b st' = (st', Ok tt) /\
  (forall st0 data q fuel,
      stop_event st0 = false ->
      Queue.get (audio_queue st0) = Some (data, q) ->
      at_detection w b data (set_audio_queue q st0) = Some st ->
      _recognition_loop w b (S fuel) st0 = (st', Raise (OBSError c)) /\
      audio_queue st' = q).
Proof.
  intros Hs Hc Hin. cbv zeta.
  assert (E : exists evs,
             trace (_trigger_censor w b st).1 = trace st ++ evs /\
             (RequestFailed c ∈ evs ->
              (_trigger_censor w b st).2 = Raise (OBSError c) /\
              (exists pre, evs = pre ++ [RequestFailed c]) /\
              (c = hide -> count_event (is_mute false) evs = 0%nat) /\
              silence (_trigger_censor w b st).1 = true)).
  { rewrite (trigger_unfold w b), Hs. unfold_session.
    destruct (videos w b) as [[|v vs]|] eqn:Hv; crank.
    all: rewrite <- ?app_assoc; cbn [app]; eexists;
      (split; [reflexivity|]).
    all: intros H; destruct Hc as [-> | ->];
      unfold mute_call, overlay_call in *; elem_inv H.
    all: split; [reflexivity|].
    all: split;
      [first [ exists []; reflexivity
             | eexists [_]; reflexivity
             | eexists [_; _]; reflexivity
             | eexists [_; _; _]; reflexivity
             | eexists [_; _; _; _]; reflexivity
             | eexists [_; _; _; _; _]; reflexivity
             | eexists [_; _; _; _; _; _]; reflexivity
             | eexists [_; _; _; _; _; _; _]; reflexivity ]|].
    all: split; [intros ?; try discriminate; reflexivity|reflexivity]. }
  destruct E as (evs & Ht & H).
  rewrite (session_events_eq w b st evs Ht) in Hin |- *.
  destruct (H Hin) as (Hr & Hpre & Hcount & Hsil).
  split; [exact Hr|]. split; [exact Hpre|]. split; [exact Hcount|].
  split; [exact Hsil|].
  split; [rewrite (trigger_unfold w b), Hsil; reflexivity|].
  intros st0 data q fuel H0 Hg Hd.
  exact (loop_detection_raises w b fuel st0 data q st _ H0 Hg Hd Hr).
Qed.

(** C4, as amended. With no video in the asset folder, and OBS answering
    the mute request and the two cleanup requests: the session requests
    mute-on, lists the folder, raises [SystemExit], and the cleanup then
    requests hide (so [set_scene_item_enabled] is called, with false, and
    never with true) and mute-off, clears the flag and prints its line;
    the folder error itself is not printed. [SystemExit] leaves the
    trigger and the recognition loop, which processes no further frame. *)
Theorem empty_folder_session (st : State) :
  videos w b = Some [] ->
  (forall tr, obs_raises w tr mute_on = false) ->
  (forall tr, obs_raises w tr hide = false) ->
  (forall tr, obs_raises w tr mute_off = false) ->
  silence st = false ->
  let st' := (_trigger_censor w b st).1 in
  let err := SystemExit "[ERR] No video files found in cat folder" in
  (_trigger_censor w b st).2 = Raise err /\
  session_events w b st =
    [Request mute_on; Iterdir folder; Request hide; Request mute_off;
     Printed LogUnmuted] /\
  silence st' = false /\
  mic_muted b (obs st') = Some false /\
  overlay_visible b (obs st') = Some false /\
  (forall st0 data q fuel,
      stop_event st0 = false ->
      Queue.get (audio_queue st0) = Some (data, q) ->
      at_detection w b data (set_audio_queue q st0) = Some st ->
      _recognition_loop w b (S fuel) st0 = (st', Raise err) /\
      audio_queue st' = q).
Proof.
  intros Hv Hmute Hhide Hunmute Hs. cbv zeta.
  assert (E : _trigger_censor w b st =
              (reverted b (emit (Iterdir folder)
                             (emit (Request mute_on) (set_silence true st))),
               Raise (SystemExit "[ERR] No video files found in cat folder"))).
  { rewrite (trigger_unfold w b), Hs. unfold_session. crank.
    all: reflexivity. }
  assert (Hr : (_trigger_censor w b st).2 =
               Raise (SystemExit "[ERR] No video files found in cat folder"))
    by (rewrite E; reflexivity).
  split; [exact Hr|].
  split.
  { apply session_events_eq. rewrite E. simpl.
    rewrite <- !app_assoc. reflexivity. }
  split; [rewrite E; apply reverted_silence|].
  split; [rewrite E; apply reverted_mic|].
  split; [rewrite E; apply reverted_overlay|].
  intros st0 data q fuel H0 Hg Hd.
  exact (loop_detection_raises w b fuel st0 data q st _ H0 Hg Hd Hr).
Qed.

End Faults.

(** ** The statements on the concrete installation *)

Section DemoRuns.

Import Demo.

Local Abbreviation st0 := (init_state obs0).
Local Abbreviation mute_on := (mute_call bot true).
Local Abbreviation mute_off := (mute_call bot false).
Local Abbreviation show := (overlay_call bot true).
Local Abbreviation hide := (overlay_call bot false).

(** Scenario A: the whole session when nothing goes wrong. *)
Example scenario_A :
  detect "well damn it" {[ "damn" ]} = {[ "damn" ]} /\
  _trigger_censor world bot st0 =
  ((_trigger_censor world bot st0).1, Ok tt) /\
  session_events world bot st0 =
    [Request mute_on; Iterdir "cats";
     Request (file_call bot "cats/sneeze.MP4"); Request show;
     Printed (LogSneezing "sneeze.MP4"); Sleep 4;
     Request hide; Request mute_off; Printed LogUnmuted].
Proof. vm_compute. repeat split. Qed.

(** Scenario B as the code runs it: the hide request is part of it, and
    the loop ends on the first of the two frames. *)
Example scenario_B :
  trace (_recognition_loop empty_folder_world bot 5 two_frames).1 =
    [Printed (LogResult (Some "well DAMN it")); Printed (LogDetected {[ "damn" ]});
     Request mute_on; Iterdir "cats"; Request hide; Request mute_off;
     Printed LogUnmuted] /\
  (_recognition_loop empty_folder_world bot 5 two_frames).2 =
    Raise (SystemExit "[ERR] No video files found in cat folder") /\
  fed (_recognition_loop empty_folder_world bot 5 two_frames).1 = [frame1].
Proof. vm_compute. repeat split. Qed.

(** Scenario C: a detection at any point of the session changes nothing. *)
Example scenario_C :
  _trigger_censor_among world bot (_trigger_censor world bot) st0
  = _trigger_censor world bot st0.
Proof. vm_compute. reflexivity. Qed.

End DemoRuns.


(** C2, as stated, fails in its last part: when the hide request of the
    cleanup raises, the session has requested mute-on and no mute-off. *)
Lemma no_unmute_after_failed_hide :
  ~ one_pair_as_specified Demo.hide_fails_world Demo.bot (init_state Demo.obs0).
Proof.
  intros H. destruct (H eq_refl eq_refl) as (_ & _ & Hoff).
  vm_compute in Hoff. discriminate Hoff.
Qed.

Lemma nested_order_witness :
  silence (init_state Demo.obs0) = false /\
  videos Demo.world Demo.bot = Some ["cats/sneeze.MP4"] /\
  exists path,
    path ∈ ["cats/sneeze.MP4"] /\
    (requests (session_events Demo.world Demo.bot (init_state Demo.obs0)) =
       [mute_call Demo.bot true; file_call Demo.bot path;
        overlay_call Demo.bot true; overlay_call Demo.bot false;
        mute_call Demo.bot false] \/
     (RequestFailed (overlay_call Demo.bot false)
        ∈ session_events Demo.world Demo.bot (init_state Demo.obs0) /\
      requests (session_events Demo.world Demo.bot (init_state Demo.obs0)) =
        [mute_call Demo.bot true; file_call Demo.bot path;
         overlay_call Demo.bot true; overlay_call Demo.bot false])) /\
    (Request (overlay_call Demo.bot true)
       ∈ session_events Demo.world Demo.bot (init_state Demo.obs0) ->
     Request (mute_call Demo.bot true)
       ∈ session_events Demo.world Demo.bot (init_state Demo.obs0)) /\
    Forall (covered Demo.bot)
      (obs_history (session_events Demo.world Demo.bot (init_state Demo.obs0))
         Demo.obs0).
Proof.
  split; [reflexivity|]. split; [vm_compute; reflexivity|].
  apply (nested_order Demo.world Demo.bot (init_state Demo.obs0)
           "cats/sneeze.MP4" []).
  - reflexivity.
  - reflexivity.
  - vm_compute. reflexivity.
  - intros tr path. reflexivity.
Defined.

Lemma empty_folder_session_witness :
  videos Demo.empty_folder_world Demo.bot = Some [] /\
  silence Demo.detected = false /\
  session_events Demo.empty_folder_world Demo.bot Demo.detected =
    [Request (mute_call Demo.bot true); Iterdir "cats";
     Request (overlay_call Demo.bot false); Request (mute_call Demo.bot false);
     Printed LogUnmuted] /\
  (_recognition_loop Demo.empty_folder_world Demo.bot 5 Demo.two_frames).2 =
    Raise (SystemExit "[ERR] No video files found in cat folder") /\
  Queue.items
    (audio_queue
       (_recognition_loop Demo.empty_folder_world Demo.bot 5 Demo.two_frames).1)
  = [Demo.frame2].
Proof.
  assert (Hv : videos Demo.empty_folder_world Demo.bot = Some [])
    by (vm_compute; reflexivity).
  destruct (empty_folder_session Demo.empty_folder_world Demo.bot Demo.detected Hv)
    as (_ & Hev & _ & _ & _ & Hloop);
    try (intros tr; reflexivity); try reflexivity.
  destruct (Hloop Demo.two_frames Demo.frame1
              {| Queue.maxsize := 0; Queue.items := [Demo.frame2] |} 4%nat)
    as (Hl & Hq); try reflexivity.
  split; [exact Hv|]. split; [reflexivity|]. split; [exact Hev|].
  rewrite Hl. split; [reflexivity|]. simpl. rewrite Hq. reflexivity.
Defined.

(** C4, as stated, fails on the empty folder: the cleanup does call
    [set_scene_item_enabled] (with false), and [SystemExit] ends the loop
    with the second frame still queued. *)
Lemma empty_folder_not_as_specified :
  ~ empty_folder_as_specified Demo.empty_folder_world Demo.bot 5 Demo.two_frames.
Proof.
  unfold empty_folder_as_specified.
  destruct (_recognition_loop Demo.empty_folder_world Demo.bot 5 Demo.two_frames)
    as [st' r] eqn:E.
  vm_compute in E. injection E as <- <-.
  intros (_ & _ & Hnever & _).
  specialize (Hnever (Request (overlay_call Demo.bot false)) false).
  assert (Hin : Request (overlay_call Demo.bot false)
                  ∈ [Printed (LogResult (Some "well DAMN it"));
                     Printed (LogDetected {[ "damn" ]});
                     Request (mute_call Demo.bot true); Iterdir "cats";
                     Request (overlay_call Demo.bot false);
                     Request (mute_call Demo.bot false); Printed LogUnmuted])
    by solve_elem.
  apply Hnever in Hin. discriminate Hin.
Qed.



Lemma cleanup_failure_propagates_witness :
  silence (init_state Demo.obs0) = false /\
  RequestFailed (overlay_call Demo.bot false)
    ∈ session_events Demo.hide_fails_world Demo.bot (init_state Demo.obs0) /\
  (_trigger_censor Demo.hide_fails_world Demo.bot (init_state Demo.obs0)).2 =
    Raise (OBSError (overlay_call Demo.bot false)) /\
  silence (_trigger_censor Demo.hide_fails_world Demo.bot (init_state Demo.obs0)).1
  = true /\
  count_event (is_mute false)
    (session_events Demo.hide_fails_world Demo.bot (init_state Demo.obs0)) = 0%nat.
Proof.
  assert (Hin : RequestFailed (overlay_call Demo.bot false)
                  ∈ session_events Demo.hide_fails_world Demo.bot
                      (init_state Demo.obs0)).
  { replace (session_events Demo.hide_fails_world Demo.bot (init_state Demo.obs0))
      with [Request (mute_call Demo.bot true); Iterdir "cats";
            Request (file_call Demo.bot "cats/sneeze.MP4");
            Request (overlay_call Demo.bot true);
            Printed (LogSneezing "sneeze.MP4"); Sleep 4;
            RequestFailed (overlay_call Demo.bot false)]
      by (vm_compute; reflexivity).
    solve_elem. }
  destruct (cleanup_failure_propagates Demo.hide_fails_world Demo.bot
              (init_state Demo.obs0) (overlay_call Demo.bot false)
              eq_refl (or_introl eq_refl) Hin)
    as (Hr & _ & Hc & Hs & _).
  split; [reflexivity|]. split; [exact Hin|]. split; [exact Hr|].
  split; [exact Hs|]. apply Hc. reflexivity.
Defined.

(** C6, as stated, fails: the hide request of the cleanup raises, the
    trigger lets the exception through, and nothing is printed after it. *)
Lemma cleanup_failure_not_contained :
  ~ cleanup_failure_as_specified Demo.hide_fails_world Demo.bot
      (init_state Demo.obs0).
Proof.
  intros H.
  specialize (H (overlay_call Demo.bot false)
                [Request (mute_call Demo.bot true); Iterdir "cats";
                 Request (file_call Demo.bot "cats/sneeze.MP4");
                 Request (overlay_call Demo.bot true);
                 Printed (LogSneezing "sneeze.MP4"); Sleep 4]
                []).
  destruct H as [Hr _].
  - vm_compute. reflexivity.
  - left. reflexivity.
  - vm_compute in Hr. discriminate Hr.
Qed.

(** * Further properties *)

(** ** Texts and word lists *)

Section MoreStrFacts.
Import PyStr.

Lemma lower_char_idem c : lower_char (lower_char c) = lower_char c.
Proof. destruct c as [[] [] [] [] [] [] [] []]; reflexivity. Qed.

Lemma lower_idem s : lower (lower s) = lower s.
Proof.
  unfold lower. rewrite chars_of_chars, map_map.
  f_equal. apply map_ext. exact lower_char_idem.
Qed.

Lemma lstrip_chars_fixed s :
  (forall c, head s = Some c -> isspace c = false) -> lstrip_chars s = s.
Proof.
  destruct s as [|c s]; [reflexivity|].
  intros H. simpl. rewrite (H c eq_refl). reflexivity.
Qed.

Lemma lstrip_chars_head s c :
  head (lstrip_chars s) = Some c -> isspace c = false.
Proof.
  induction s as [|d s IH]; [discriminate|].
  simpl. destruct (isspace d) eqn:Hd; [exact IH|].
  simpl. intros [= <-]. exact Hd.
Qed.

(** [lstrip] cuts a prefix. *)
Lemma lstrip_chars_suffix s : exists pre, s = pre ++ lstrip_chars s.
Proof.
  induction s as [|d s [pre IH]]; [exists []; reflexivity|].
  simpl. destruct (isspace d).
  - exists (d :: pre). simpl. f_equal. exact IH.
  - exists []. reflexivity.
Qed.

Lemma head_rev {A} (l : list A) : head (rev l) = last l.
Proof.
  induction l as [|x l IH] using rev_ind; [reflexivity|].
  rewrite rev_app_distr, last_snoc. reflexivity.
Qed.

Lemma last_rev {A} (l : list A) : last (rev l) = head l.
Proof. rewrite <- head_rev, rev_involutive. reflexivity. Qed.

Lemma strip_chars_trimmed s : trimmed (strip_chars s).
Proof.
  unfold strip_chars, trimmed.
  set (a := lstrip_chars s).
  set (r := lstrip_chars (rev a)).
  split.
  - intros c Hc. rewrite head_rev in Hc.
    (* the last of [r] is the last of [rev a], the head of [a] *)
    destruct (lstrip_chars_suffix (rev a)) as [pre Hpre]. fold r in Hpre.
    destruct r as [|x r'] eqn:Er; [discriminate|].
    assert (Hl : last (rev a) = Some c).
    { rewrite Hpre, last_app, Hc. reflexivity. }
    rewrite last_rev in Hl. exact (lstrip_chars_head s c Hl).
  - intros c Hc. rewrite last_rev in Hc.
    exact (lstrip_chars_head (rev a) c Hc).
Qed.

Lemma strip_chars_fixed s : trimmed s -> strip_chars s = s.
Proof.
  intros [Hh Hl]. unfold strip_chars.
  rewrite (lstrip_chars_fixed s Hh).
  rewrite lstrip_chars_fixed, rev_involutive; [reflexivity|].
  intros c. rewrite head_rev. apply Hl.
Qed.

Lemma trimmed_lower s : trimmed s -> trimmed (map lower_char s).
Proof.
  intros [Hh Hl]. split; intros c Hc.
  - destruct s as [|d s]; [discriminate|]. simpl in Hc. injection Hc as <-.
    rewrite isspace_lower_char. apply Hh. reflexivity.
  - destruct s as [|d s _] using rev_ind; [discriminate|].
    rewrite map_app in Hc. simpl in Hc. rewrite last_snoc in Hc.
    injection Hc as <-.
    rewrite isspace_lower_char. apply Hl. apply last_snoc.
Qed.

Lemma strip_idem s : strip (strip s) = strip s.
Proof.
  unfold strip. rewrite chars_of_chars.
  rewrite (strip_chars_fixed _ (strip_chars_trimmed _)). reflexivity.
Qed.

Lemma strip_lower_strip s : strip (lower (strip s)) = lower (strip s).
Proof.
  unfold strip, lower. rewrite !chars_of_chars.
  rewrite (strip_chars_fixed _ (trimmed_lower _ (strip_chars_trimmed _))).
  reflexivity.
Qed.

Lemma truthy_lower s : truthy (lower s) = truthy s.
Proof.
  unfold lower, chars, of_chars. destruct s; reflexivity.
Qed.

End MoreStrFacts.

Section WordLists.
Import PyStr.

Lemma truthy_true s : truthy s = true <-> s <> "".
Proof. destruct s; simpl; split; congruence. Qed.

Lemma elem_of_map_iff {A B} (f : A -> B) (l : list A) (x : B) :
  x ∈ map f l <-> exists y, y ∈ l /\ f y = x.
Proof.
  rewrite list_elem_of_In, in_map_iff.
  split; intros (y & H1 & H2); exists y.
  - apply list_elem_of_In in H2. auto.
  - apply list_elem_of_In in H1. auto.
Qed.

Lemma default_word_normal x :
  x ∈ DEFAULT_SWEAR_WORDS -> x <> "" /\ strip x = x /\ lower x = x.
Proof.
  unfold DEFAULT_SWEAR_WORDS. rewrite elem_of_list_to_set. intros H.
  repeat (apply elem_of_cons in H as [->|H];
          [repeat split; [discriminate|vm_compute; reflexivity..]|]).
  apply elem_of_nil in H. contradiction.
Qed.

(** X1. A swear-list file that can be read adds to the built-in words
    exactly the stripped, lower-cased forms of its lines that are not blank,
    and loading it changes nothing else. *)
Theorem swear_list_round_trip (w : World) (c : Config) (p : string)
    (lines : list string) (st : State) :
  swear_list c = Some p ->
  fs w !! p = Some (RegularFile (Some lines)) ->
  exists words,
    _load_swear_words w c st = (st, Ok words) /\
    forall x,
      x ∈ words <->
      x ∈ DEFAULT_SWEAR_WORDS \/
      exists l, l ∈ lines /\ strip l <> "" /\ x = lower (strip l).
Proof.
  intros Hp Hf. unfold _load_swear_words. rewrite Hp, Hf.
  eexists. split; [reflexivity|].
  intros x. rewrite elem_of_union, elem_of_list_to_set, elem_of_map_iff.
  split; (intros [H|H]; [left; exact H|right]).
  - destruct H as (l & Hl & <-).
    apply list_elem_of_filter in Hl as [Ht Hl].
    exists l. rewrite truthy_true in Ht. auto.
  - destruct H as (l & Hl & Hne & ->). exists l. split; [|reflexivity].
    apply list_elem_of_filter.
    rewrite truthy_true. auto.
Qed.

Lemma swear_list_round_trip_witness :
  swear_list Demo.config = Some "swears.txt" /\
  fs Demo2.swears_world !! "swears.txt"
  = Some (RegularFile (Some Demo2.swear_lines)) /\
  exists words,
    _load_swear_words Demo2.swears_world Demo.config (init_state Demo.obs0)
    = (init_state Demo.obs0, Ok words) /\
    "frak" ∈ words /\ "son of a gun" ∈ words /\ "damn" ∈ words /\
    "" ∉ words.
Proof.
  assert (Hf : fs Demo2.swears_world !! "swears.txt"
               = Some (RegularFile (Some Demo2.swear_lines)))
    by (vm_compute; reflexivity).
  split; [reflexivity|]. split; [exact Hf|].
  destruct (swear_list_round_trip Demo2.swears_world Demo.config "swears.txt"
              Demo2.swear_lines (init_state Demo.obs0) eq_refl Hf)
    as (words & Hload & Hin).
  exists words. split; [exact Hload|].
  split; [|split; [|split]].
  - apply Hin. right. exists "  Frak ".
    split; [solve_elem|]. split; [vm_compute; discriminate|reflexivity].
  - apply Hin. right. exists "son of a gun".
    split; [solve_elem|]. split; [vm_compute; discriminate|reflexivity].
  - apply Hin. left. vm_compute. set_solver.
  - intros H. apply Hin in H as [H|(l & Hl & Hne & Hx)].
    + apply default_word_normal in H as [H _]. congruence.
    + symmetry in Hx. apply (f_equal truthy) in Hx.
      rewrite truthy_lower in Hx. apply truthy_true in Hne.
      rewrite Hne in Hx. discriminate.
Defined.

(** X2. Whatever the configuration and the files, a word set that loading
    returns contains every built-in word, and each of its words is not
    empty, has no white space at either end and is in lower case; the state
    is as before. *)
Theorem loaded_words_normalised (w : World) (c : Config) (st : State)
    (words : gset string) :
  (_load_swear_words w c st).2 = Ok words ->
  (_load_swear_words w c st).1 = st /\
  DEFAULT_SWEAR_WORDS ⊆ words /\
  forall x, x ∈ words -> x <> "" /\ strip x = x /\ lower x = x.
Proof.
  unfold _load_swear_words.
  destruct (swear_list c) as [p|];
    [destruct (fs w !! p) as [[[lines|]| |names| ]|] eqn:Hf|];
    simpl; intros [= <-]; try discriminate;
    try (split; [reflexivity|]; split; [reflexivity|];
         exact default_word_normal).
  split; [reflexivity|]. split; [apply union_subseteq_l|].
  intros x. rewrite elem_of_union, elem_of_list_to_set.
  intros [H|H]; [exact (default_word_normal x H)|].
  apply elem_of_map_iff in H as (l & Hl & <-).
  apply list_elem_of_filter in Hl as [Ht _].
  split; [|split].
  - rewrite <- truthy_true, truthy_lower. exact Ht.
  - apply strip_lower_strip.
  - apply lower_idem.
Qed.

Lemma loaded_words_normalised_witness :
  exists words,
    (_load_swear_words Demo2.swears_world Demo.config (init_state Demo.obs0)).2
    = Ok words /\
    "frak" ∈ words /\ "son of a gun" ∈ words /\
    (_load_swear_words Demo2.swears_world Demo.config (init_state Demo.obs0)).1
    = init_state Demo.obs0 /\
    DEFAULT_SWEAR_WORDS ⊆ words /\
    forall x, x ∈ words -> x <> "" /\ strip x = x /\ lower x = x.
Proof.
  assert (Hf : fs Demo2.swears_world !! "swears.txt"
               = Some (RegularFile (Some Demo2.swear_lines)))
    by (vm_compute; reflexivity).
  set (words := DEFAULT_SWEAR_WORDS ∪
                list_to_set
                  (map (fun l => lower (strip l))
                     (filter (fun l => truthy (strip l) = true)
                        Demo2.swear_lines)) : gset string).
  assert (Hload : (_load_swear_words Demo2.swears_world Demo.config
                     (init_state Demo.obs0)).2 = Ok words).
  { assert (Hp : swear_list Demo.config = Some "swears.txt") by reflexivity.
    unfold _load_swear_words. rewrite Hp, Hf. reflexivity. }
  exists words. split; [exact Hload|].
  split; [|split].
  - apply elem_of_union. right. apply elem_of_list_to_set, elem_of_map_iff.
    exists "  Frak ". split; [|reflexivity].
    apply list_elem_of_filter. split; [reflexivity|solve_elem].
  - apply elem_of_union. right. apply elem_of_list_to_set, elem_of_map_iff.
    exists "son of a gun". split; [|reflexivity].
    apply list_elem_of_filter. split; [reflexivity|solve_elem].
  - exact (loaded_words_normalised Demo2.swears_world Demo.config
             (init_state Demo.obs0) words Hload).
Defined.

Lemma chars_lower s : chars (lower s) = map lower_char (chars s).
Proof. unfold lower. apply chars_of_chars. Qed.

(** X3. A word with white space inside, and the empty word, are never
    among the matches, whatever the text and the word set: a swear-list line
    of several words cannot trigger the censor. *)
Theorem spaced_word_never_matches (text : string) (ws : gset string)
    (x : string) :
  x = "" \/ has_space x ->
  x ∉ detect text ws.
Proof.
  intros Hx Hin.
  apply detect_spec in Hin as (_ & t & Ht & <-).
  destruct Ht as (pre & post & _ & Hne & Hall & _).
  destruct Hx as [Hx|Hx].
  - apply (f_equal chars) in Hx. rewrite chars_lower in Hx.
    destruct (chars t); [congruence|discriminate].
  - unfold has_space in Hx. rewrite chars_lower in Hx.
    apply Exists_exists in Hx as (c & Hc & Hsp).
    apply elem_of_map_iff in Hc as (d & Hd & <-).
    rewrite isspace_lower_char in Hsp.
    rewrite Forall_forall in Hall.
    rewrite (Hall d Hd) in Hsp. discriminate.
Qed.

Lemma spaced_word_never_matches_witness :
  "son of a gun" ∉ detect "you son of a gun" {[ "son of a gun" ]}.
Proof.
  apply spaced_word_never_matches. right.
  unfold has_space. vm_compute. apply Exists_cons_tl, Exists_cons_tl,
    Exists_cons_tl, Exists_cons_hd. reflexivity.
Defined.

Lemma chars_app a b : chars (a +:+ b) = chars a ++ chars b.
Proof.
  unfold chars. induction a as [|c a IH]; [reflexivity|].
  simpl. f_equal. exact IH.
Qed.

Lemma split_chars_snoc_space a sep :
  isspace sep = true -> split_chars (a ++ [sep]) = split_chars a.
Proof.
  intros Hs. induction a as [|c a IH].
  - simpl. rewrite Hs. reflexivity.
  - rewrite <- app_comm_cons. destruct (isspace c) eqn:Hc.
    + rewrite !(split_chars_space c) by exact Hc. exact IH.
    + destruct a as [|d a].
      * change ([] ++ [sep]) with [sep].
        rewrite split_chars_end by assumption.
        rewrite (split_chars_space sep) by exact Hs.
        rewrite split_chars_last by exact Hc. reflexivity.
      * rewrite <- app_comm_cons in *. destruct (isspace d) eqn:Hd.
        -- rewrite !(split_chars_end c d) by assumption. rewrite IH.
           reflexivity.
        -- rewrite !(split_chars_more c d) by assumption. rewrite IH.
           reflexivity.
Qed.

Lemma split_chars_join a sep b :
  isspace sep = true ->
  split_chars (a ++ sep :: b) = split_chars a ++ split_chars b.
Proof.
  intros Hs.
  change (a ++ sep :: b) with (a ++ [sep] ++ b). rewrite app_assoc.
  rewrite split_chars_app.
  - rewrite split_chars_snoc_space by exact Hs. reflexivity.
  - right. exists sep. split; [apply last_snoc|exact Hs].
Qed.

(** X4. The matches of two texts joined by a white-space character are the
    matches of the one together with the matches of the other. *)
Theorem detect_join (a b : string) (sep : ascii) (ws : gset string) :
  isspace sep = true ->
  detect (a +:+ String sep b) ws = detect a ws ∪ detect b ws.
Proof.
  intros Hs. unfold detect, bad_words, split.
  rewrite !chars_lower, chars_app. simpl chars.
  change (chars a ++ sep :: list_ascii_of_string b)
    with (chars a ++ sep :: chars b).
  rewrite map_app. cbn [map].
  rewrite split_chars_join by (rewrite isspace_lower_char; exact Hs).
  rewrite map_app, list_to_set_app_L.
  apply intersection_union_r_L.
Qed.

Lemma detect_join_witness :
  detect ("oh HELL" +:+ String " " "well damn it") DEFAULT_SWEAR_WORDS
  = detect "oh HELL" DEFAULT_SWEAR_WORDS ∪ detect "well damn it" DEFAULT_SWEAR_WORDS.
Proof. apply detect_join. reflexivity. Defined.

End WordLists.

(** ** The asset folder *)

Section Assets.

Context (w : World) (b : Bot).

Local Abbreviation folder := (cat_folder (cfg b)).

Lemma after_last_none sep acc s :
  sep ∉ s -> PyStr.after_last sep acc s = acc.
Proof.
  revert acc. induction s as [|c s IH]; intros acc H; [reflexivity|].
  apply not_elem_of_cons in H as [Hc Hs]. simpl.
  destruct (Ascii.eqb_spec c sep) as [->|_]; [congruence|].
  apply IH. exact Hs.
Qed.

Lemma after_last_last sep acc pre s :
  sep ∉ s -> PyStr.after_last sep acc (pre ++ sep :: s) = s.
Proof.
  intros H. revert acc. induction pre as [|c pre IH]; intros acc; simpl.
  - rewrite Ascii.eqb_refl. apply after_last_none. exact H.
  - destruct (Ascii.eqb c sep); apply IH.
Qed.

Lemma root_cases s :
  PyStr.root s = [] \/ PyStr.root s = ["/"%char] \/
  PyStr.root s = ["/"%char; "/"%char].
Proof.
  unfold PyStr.root.
  destruct s as [|c1 s]; [auto|].
  destruct c1 as [[] [] [] [] [] [] [] []]; auto.
  destruct s as [|c2 s]; [auto|].
  destruct c2 as [[] [] [] [] [] [] [] []]; auto.
  destruct s as [|c3 s]; [auto|].
  destruct c3 as [[] [] [] [] [] [] [] []]; auto.
Qed.

Lemma join_snoc x ps n :
  PyStr.join ((x :: ps) ++ [n]) = PyStr.join (x :: ps) ++ "/"%char :: n.
Proof.
  revert x. induction ps as [|y ps IH]; intros x; [reflexivity|].
  change (PyStr.join ((x :: y :: ps) ++ [n]))
    with (x ++ "/"%char :: PyStr.join ((y :: ps) ++ [n])).
  rewrite IH.
  change (PyStr.join (x :: y :: ps))
    with (x ++ "/"%char :: PyStr.join (y :: ps)).
  rewrite <- app_assoc. reflexivity.
Qed.

(** The string of a child path is the name, or ends in a slash and the
    name. *)
Lemma child_chars_cases f n :
  PyStr.child_chars f n = n \/
  exists pre, PyStr.child_chars f n = pre ++ "/"%char :: n.
Proof.
  unfold PyStr.child_chars. destruct (PyStr.parts f) as [|x ps].
  - destruct (root_cases f) as [->|[->| ->]].
    + left. reflexivity.
    + right. exists []. reflexivity.
    + right. exists ["/"%char]. reflexivity.
  - right. exists (PyStr.root f ++ PyStr.join (x :: ps)).
    rewrite join_snoc, app_assoc. reflexivity.
Qed.

(** The last component of a child path, and its suffix, are those of the
    name, for a name without a slash. *)
Lemma name_child f n :
  "/"%char ∉ PyStr.chars n ->
  PyStr.name (PyStr.child f n) = n /\
  PyStr.suffix (PyStr.child f n) = PyStr.suffix n.
Proof.
  intros H.
  assert (E : PyStr.name_chars (PyStr.chars (PyStr.child f n)) = PyStr.chars n).
  { unfold PyStr.child. rewrite chars_of_chars.
    destruct (child_chars_cases (PyStr.chars f) (PyStr.chars n))
      as [->|[pre ->]]; unfold PyStr.name_chars;
      [apply after_last_none|apply after_last_last]; exact H. }
  assert (E2 : PyStr.name_chars (PyStr.chars n) = PyStr.chars n)
    by (apply after_last_none; exact H).
  split.
  - unfold PyStr.name. rewrite E. apply of_chars_chars.
  - unfold PyStr.suffix. rewrite E, E2. reflexivity.
Qed.

(** The child path on some folders: a relative folder, the current
    directory, a folder written with doubled and trailing slashes, and a
    folder under a root of two slashes. *)
Example child_examples :
  PyStr.child "cats" "sneeze.MP4" = "cats/sneeze.MP4" /\
  PyStr.child "." "sneeze.MP4" = "sneeze.MP4" /\
  PyStr.child "./cats" "sneeze.MP4" = "cats/sneeze.MP4" /\
  PyStr.child "/srv//cats/" "sneeze.MP4" = "/srv/cats/sneeze.MP4" /\
  PyStr.child "//srv" "sneeze.MP4" = "//srv/sneeze.MP4" /\
  PyStr.child "///srv" "sneeze.MP4" = "/srv/sneeze.MP4" /\
  PyStr.child "/" "sneeze.MP4" = "/sneeze.MP4".
Proof. repeat split; vm_compute; reflexivity. Qed.

(** X5. Listing the asset folder adds one event and changes nothing else.
    A path that comes back is the string of the child path, as [pathlib]
    writes it, of the folder and an entry of the folder whose suffix, in
    lower case, is one of the four video suffixes; for an entry name without
    a slash, the last component of that string is the name, whatever the
    spelling of the folder, and its suffix is the suffix of the name. A path
    does come back exactly when the folder is a directory with at least one
    such entry. *)
Theorem pick_cat_video_spec (st : State) :
  (_pick_cat_video w b st).1 = emit (Iterdir folder) st /\
  (forall path,
      (_pick_cat_video w b st).2 = Ok path ->
      exists names name,
        fs w !! folder = Some (Directory names) /\
        name ∈ names /\
        PyStr.lower (PyStr.suffix name) ∈ VIDEO_SUFFIXES /\
        path = PyStr.child folder name /\
        ("/"%char ∉ PyStr.chars name ->
         PyStr.name path = name /\
         PyStr.suffix path = PyStr.suffix name /\
         is_video path = true)) /\
  ((exists path, (_pick_cat_video w b st).2 = Ok path) <->
   exists names name,
     fs w !! folder = Some (Directory names) /\
     name ∈ names /\ is_video name = true).
Proof.
  unfold _pick_cat_video. settle.
  destruct (fs w !! folder) as [[text| |names| ]|] eqn:Hf.
  3: {
    set (vids := map (fun n => PyStr.child folder n)
                     (filter (fun n => is_video n = true) names)).
    assert (Hvid : forall path, path ∈ vids <->
                     exists name, name ∈ names /\ is_video name = true /\
                                  path = PyStr.child folder name).
    { intros path. unfold vids. rewrite elem_of_map_iff. split.
      - intros (n & Hn & <-). apply list_elem_of_filter in Hn as [Hv Hn].
        exists n. auto.
      - intros (n & Hn & Hv & ->). exists n. split; [|reflexivity].
        apply list_elem_of_filter. auto. }
    destruct vids as [|v vs] eqn:Ev.
    + split; [reflexivity|]. split; [discriminate|].
      split; [intros [? ?]; discriminate|].
      intros (names' & name & [= <-] & Hn & Hv).
      exfalso. apply (elem_of_nil (PyStr.child folder name)).
      apply Hvid. exists name. auto.
    + split; [reflexivity|]. cbn [snd].
      assert (Hnth : forall i, nth (i mod length (v :: vs)) (v :: vs) v ∈ v :: vs).
      { intros i. apply list_elem_of_In, nth_In, Nat.mod_upper_bound.
        discriminate. }
      split.
      * intros path [= <-].
        destruct (proj1 (Hvid _) (Hnth (choice_index w (trace st ++ [Iterdir folder]))))
          as (name & Hn & Hv & Hp).
        exists names, name. split; [reflexivity|]. split; [exact Hn|].
        split.
        { unfold is_video in Hv. apply bool_decide_eq_true in Hv. exact Hv. }
        split; [exact Hp|].
        intros Hslash.
        destruct (name_child folder name Hslash) as [E1 E2].
        assert (E3 : is_video (PyStr.child folder name) = true).
        { unfold is_video in Hv |- *. rewrite E2. exact Hv. }
        rewrite <- Hp in E1, E2, E3.
        split; [exact E1|]. split; [exact E2|exact E3].
      * split; [|intros _; eexists; reflexivity].
        intros _.
        destruct (proj1 (Hvid v) ltac:(solve_elem)) as (name & Hn & Hv & _).
        exists names, name. auto. }
  all: split; [reflexivity|]; split; [discriminate|];
    split; [intros [? ?]; discriminate
           |intros (? & ? & ? & _); discriminate].
Qed.

End Assets.

Lemma pick_cat_video_spec_witness :
  ((_pick_cat_video Demo.world Demo.bot (init_state Demo.obs0)).2
   = Ok "cats/sneeze.MP4" /\
   "cats/sneeze.MP4" = PyStr.child "cats" "sneeze.MP4" /\
   PyStr.name "cats/sneeze.MP4" = "sneeze.MP4" /\
   is_video "cats/sneeze.MP4" = true) /\
  ((_pick_cat_video Demo2.here_world Demo2.here_bot (init_state Demo.obs0)).2
   = Ok "sneeze.MP4" /\
   "sneeze.MP4" = PyStr.child "." "sneeze.MP4" /\
   PyStr.name "sneeze.MP4" = "sneeze.MP4" /\
   is_video "sneeze.MP4" = true).
Proof.
  assert (Hslash : "/"%char ∉ PyStr.chars "sneeze.MP4").
  { intros Hin. vm_compute in Hin. elem_inv Hin. }
  split.
  - assert (H : (_pick_cat_video Demo.world Demo.bot (init_state Demo.obs0)).2
                = Ok "cats/sneeze.MP4") by (vm_compute; reflexivity).
    assert (Hd : fs Demo.world !! "cats"
                 = Some (Directory ["notes.txt"; "sneeze.MP4"]))
      by (vm_compute; reflexivity).
    destruct (pick_cat_video_spec Demo.world Demo.bot (init_state Demo.obs0))
      as (_ & Hpath & _).
    destruct (Hpath _ H) as (names & name & Hf & Hn & _ & Hp & Hrest).
    pose proof (eq_trans (eq_sym Hd) Hf) as Hinj. injection Hinj as <-.
    assert (Hname : name = "sneeze.MP4").
    { apply elem_of_cons in Hn as [->|Hn];
        [vm_compute in Hp; discriminate Hp|].
      apply elem_of_cons in Hn as [->|Hn]; [reflexivity|].
      apply elem_of_nil in Hn. contradiction. }
    subst name. destruct (Hrest Hslash) as (E1 & _ & E3).
    split; [exact H|]. split; [exact Hp|]. split; [exact E1|exact E3].
  - assert (H : (_pick_cat_video Demo2.here_world Demo2.here_bot
                   (init_state Demo.obs0)).2
                = Ok "sneeze.MP4") by (vm_compute; reflexivity).
    assert (Hd : fs Demo2.here_world !! "."
                 = Some (Directory ["sneeze.MP4"; "notes.txt"]))
      by (vm_compute; reflexivity).
    destruct (pick_cat_video_spec Demo2.here_world Demo2.here_bot
                (init_state Demo.obs0))
      as (_ & Hpath & _).
    destruct (Hpath _ H) as (names & name & Hf & Hn & _ & Hp & Hrest).
    pose proof (eq_trans (eq_sym Hd) Hf) as Hinj. injection Hinj as <-.
    assert (Hname : name = "sneeze.MP4").
    { apply elem_of_cons in Hn as [->|Hn]; [reflexivity|].
      apply elem_of_cons in Hn as [->|Hn];
        [vm_compute in Hp; discriminate Hp|].
      apply elem_of_nil in Hn. contradiction. }
    subst name. destruct (Hrest Hslash) as (E1 & _ & E3).
    split; [exact H|]. split; [exact Hp|]. split; [exact E1|exact E3].
Defined.

(** What [time.sleep] accepts without an overflow. *)
Lemma sleep_overflows_false secs :
  sleep_overflows secs = false <->
  (-9223372036 <= secs <= 9223372036)%Z.
Proof.
  unfold sleep_overflows. rewrite orb_false_iff, !Z.ltb_ge. lia.
Qed.

(** ** More on one session *)

Section MoreSessions.

Context (w : World) (b : Bot).

Local Abbreviation mute_on := (mute_call b true).
Local Abbreviation mute_off := (mute_call b false).
Local Abbreviation show := (overlay_call b true).
Local Abbreviation hide := (overlay_call b false).
Local Abbreviation folder := (cat_folder (cfg b)).



(** X7. A session that starts with the flag clear and returns normally was
    a complete one: a video of the folder was picked, the hold was not
    negative and not beyond what [time.sleep] takes, no request raised, the events are those of the full session,
    and the microphone is live, the overlay hidden and the flag clear. *)
Theorem normal_return_means_complete (st : State) :
  silence st = false ->
  (_trigger_censor w b st).2 = Ok tt ->
  let st' := (_trigger_censor w b st).1 in
  (0 <= cat_visible_seconds (cfg b) <= 9223372036)%Z /\
  exists path vids,
    videos w b = Some vids /\ path ∈ vids /\
    session_events w b st = full_session b path /\
    mic_muted b (obs st') = Some false /\
    overlay_visible b (obs st') = Some false /\
    silence st' = false.
Proof.
  intros Hs. cbv zeta.
  assert (E : (_trigger_censor w b st).2 = Ok tt ->
              (0 <= cat_visible_seconds (cfg b) <= 9223372036)%Z /\
              exists path vids st1,
                videos w b = Some vids /\ path ∈ vids /\
                _trigger_censor w b st = (reverted b st1, Ok tt) /\
                trace st1 =
                trace st ++ [Request mute_on; Iterdir folder;
                             Request (file_call b path); Request show;
                             Printed (LogSneezing (PyStr.name path));
                             Sleep (cat_visible_seconds (cfg b))]).
  { rewrite (trigger_unfold w b), Hs. unfold_session.
    destruct (videos w b) as [[|v vs]|] eqn:Hv; crank.
    all: try (intros H; discriminate H).
    intros _. split.
    { match goal with
      | H1 : sleep_overflows _ = false, H2 : (_ <? 0)%Z = false |- _ =>
          apply sleep_overflows_false in H1; apply Z.ltb_ge in H2; lia
      end. }
    exists path, (v :: vs). eexists.
    split; [reflexivity|]. split; [assumption|].
    split; [reflexivity|].
    simpl. rewrite <- !app_assoc. reflexivity. }
  intros Hr. destruct (E Hr) as (Hsecs & path & vids & st1 & Hv & Hin & Et & Ht).
  split; [exact Hsecs|]. exists path, vids.
  split; [exact Hv|]. split; [exact Hin|].
  rewrite Et. cbn [fst].
  split.
  { apply session_events_eq. rewrite Et. simpl. rewrite Ht.
    rewrite <- !app_assoc. reflexivity. }
  split; [apply reverted_mic|].
  split; [apply reverted_overlay|apply reverted_silence].
Qed.

(** X8. After a session that started with the flag clear, the flag is still
    set exactly when one of the two requests of the cleanup raised. *)
Theorem flag_stuck_iff_cleanup_failed (st : State) :
  silence st = false ->
  (silence (_trigger_censor w b st).1 = true <->
   RequestFailed hide ∈ session_events w b st \/
   RequestFailed mute_off ∈ session_events w b st).
Proof.
  intros Hs.
  assert (E : exists evs,
             trace (_trigger_censor w b st).1 = trace st ++ evs /\
             (silence (_trigger_censor w b st).1 = true <->
              RequestFailed hide ∈ evs \/ RequestFailed mute_off ∈ evs)).
  { rewrite (trigger_unfold w b), Hs. unfold_session.
    destruct (videos w b) as [[|v vs]|] eqn:Hv; crank.
    all: rewrite <- ?app_assoc; cbn [app]; eexists;
      (split; [reflexivity|]).
    all: unfold mute_call, overlay_call.
    all: split;
      [ first [ discriminate
              | intros _; first [left; solve [solve_elem]
                                | right; solve [solve_elem]] ]
      | first [ intros _; reflexivity
              | intros [H|H]; elem_inv H ] ]. }
  destruct E as (evs & Ht & H).
  rewrite (session_events_eq w b st evs Ht). exact H.
Qed.


End MoreSessions.

(** ** What a session leaves alone *)

Section Frame.

Context (w : World) (b : Bot).

Lemma confined_ret {A} P (a : A) : confined P (mret a).
Proof. intros st. exists []. simpl. rewrite app_nil_r. auto. Qed.

Lemma confined_raise {A} P e : confined P (@raise A e).
Proof. intros st. exists []. simpl. rewrite app_nil_r. auto. Qed.

Lemma confined_emit (P : Event -> Prop) e : P e -> confined P (modify (emit e)).
Proof. intros H st. exists [e]. simpl. auto. Qed.

Lemma confined_set_silence P v : confined P (modify (set_silence v)).
Proof. intros st. exists []. simpl. rewrite app_nil_r. auto. Qed.

Lemma confined_ws (P : Event -> Prop) c :
  P (Request c) -> P (RequestFailed c) -> confined P (ws w c).
Proof.
  intros H1 H2 st. unfold ws. destruct (obs_raises w (trace st) c).
  - exists [RequestFailed c]. simpl. auto.
  - exists [Request c]. simpl. auto.
Qed.

Lemma confined_bind {A B} P (m : M A) (f : A -> M B) :
  confined P m -> (forall a, confined P (f a)) -> confined P (m ≫= f).
Proof.
  intros Hm Hf st. unfold mbind, M_bind.
  destruct (Hm st) as (evs1 & Ht & Hp & Hfed).
  destruct (m st) as [st1 [a|e]]; simpl in *.
  - destruct (Hf a st1) as (evs2 & Ht2 & Hp2 & Hfed2).
    exists (evs1 ++ evs2).
    rewrite Ht2, Hfed2, Ht, Hfed, app_assoc.
    split; [reflexivity|]. split; [apply Forall_app; auto|reflexivity].
  - exists evs1. auto.
Qed.

Lemma confined_try_finally {A} P (m : M A) (fin : M unit) :
  confined P m -> confined P fin -> confined P (try_finally m fin).
Proof.
  intros Hm Hf st. unfold try_finally.
  destruct (Hm st) as (evs1 & Ht & Hp & Hfed).
  destruct (m st) as [st1 r]; simpl in *.
  destruct (Hf st1) as (evs2 & Ht2 & Hp2 & Hfed2).
  exists (evs1 ++ evs2).
  destruct (fin st1) as [st2 [[]|e]]; simpl in *;
    rewrite Ht2, Hfed2, Ht, Hfed, app_assoc;
    (split; [reflexivity|]); (split; [apply Forall_app; auto|reflexivity]).
Qed.

Lemma own_mute v : own_event b (Request (mute_call b v)) /\
                   own_event b (RequestFailed (mute_call b v)).
Proof. split; left; exists v; reflexivity. Qed.

Lemma own_file p : own_event b (Request (file_call b p)) /\
                   own_event b (RequestFailed (file_call b p)).
Proof. split; right; left; exists p; reflexivity. Qed.

Lemma own_overlay v : own_event b (Request (overlay_call b v)) /\
                      own_event b (RequestFailed (overlay_call b v)).
Proof. split; right; right; exists v; reflexivity. Qed.

Lemma confined_pick : confined (own_event b) (_pick_cat_video w b).
Proof.
  unfold _pick_cat_video.
  apply confined_bind; [apply confined_emit; exact I|intros _].
  destruct (fs w !! cat_folder (cfg b)) as [[?| |names| ]|];
    try apply confined_raise.
  destruct (map _ _); [apply confined_raise|].
  intros st. exists []. simpl. rewrite app_nil_r. auto.
Qed.

Lemma confined_trigger : confined (own_event b) (_trigger_censor w b).
Proof.
  intros st. rewrite (trigger_unfold w b). destruct (silence st).
  - exists []. simpl. rewrite app_nil_r. auto.
  - assert (H : confined (own_event b)
                   (try_finally (body w b) (cleanup w b)));
      [|exact (H (set_silence true st))].
    apply confined_try_finally.
    + unfold body, _set_cat_source_file, print, time_sleep.
      apply confined_bind; [apply confined_ws; apply own_mute|intros _].
      apply confined_bind; [apply confined_pick|intros p].
      apply confined_bind; [apply confined_ws; apply (own_file p)|intros _].
      apply confined_bind; [apply confined_ws; apply own_overlay|intros _].
      apply confined_bind; [apply confined_emit; exact I|intros _].
      destruct (sleep_overflows _); [apply confined_raise|].
      destruct (_ <? _)%Z; [apply confined_raise|apply confined_emit; exact I].
    + unfold cleanup, print.
      apply confined_bind; [apply confined_ws; apply own_overlay|intros _].
      apply confined_bind; [apply confined_ws; apply own_mute|intros _].
      apply confined_bind; [apply confined_set_silence|intros _].
      apply confined_emit. exact I.
Qed.

(** Events of the bot leave the rest of OBS as it is. *)
Lemma own_event_frame e o :
  own_event b e ->
  (forall n, n <> mic_source_name (cfg b) ->
             input_muted (apply_event e o) !! n = input_muted o !! n) /\
  (forall n, n <> cat_source_name (cfg b) ->
             input_file (apply_event e o) !! n = input_file o !! n) /\
  (forall k, k <> (scene_name b, cat_item_id b) ->
             item_enabled (apply_event e o) !! k = item_enabled o !! k).
Proof.
  destruct e as [c|c|f|s|l]; simpl; try (intros _; split; [|split]; reflexivity).
  intros [[v ->]|[[p ->]|[v ->]]]; simpl;
    repeat split; intros; try reflexivity;
    apply lookup_insert_ne; congruence.
Qed.

Lemma replay_frame evs :
  Forall (own_event b) evs ->
  forall o,
    (forall n, n <> mic_source_name (cfg b) ->
               input_muted (replay evs o) !! n = input_muted o !! n) /\
    (forall n, n <> cat_source_name (cfg b) ->
               input_file (replay evs o) !! n = input_file o !! n) /\
    (forall k, k <> (scene_name b, cat_item_id b) ->
               item_enabled (replay evs o) !! k = item_enabled o !! k).
Proof.
  induction 1 as [|e evs He _ IH]; intros o; [simpl; auto|].
  change (replay (e :: evs) o) with (replay evs (apply_event e o)).
  destruct (IH (apply_event e o)) as (I1 & I2 & I3).
  destruct (own_event_frame e o He) as (F1 & F2 & F3).
  repeat split; intros.
  - rewrite I1, F1 by assumption. reflexivity.
  - rewrite I2, F2 by assumption. reflexivity.
  - rewrite I3, F3 by assumption. reflexivity.
Qed.

(** X10. Whatever happens in it, a call of the trigger leaves the audio
    queue, the stop flag and the recognizer's input as they were; every
    request it issues is a mute request on the configured microphone, a
    settings request on the configured media source or an enable request on
    the overlay item; and in OBS the mute state of every other input, the
    file of every other source and the visibility of every other scene item
    are unchanged. *)
Theorem trigger_frame (st : State) :
  let st' := (_trigger_censor w b st).1 in
  audio_queue st' = audio_queue st /\
  stop_event st' = stop_event st /\
  fed st' = fed st /\
  Forall (own_event b) (session_events w b st) /\
  (forall n, n <> mic_source_name (cfg b) ->
             input_muted (obs st') !! n = input_muted (obs st) !! n) /\
  (forall n, n <> cat_source_name (cfg b) ->
             input_file (obs st') !! n = input_file (obs st) !! n) /\
  (forall k, k <> (scene_name b, cat_item_id b) ->
             item_enabled (obs st') !! k = item_enabled (obs st) !! k).
Proof.
  cbv zeta.
  destruct (grows_trigger w b st) as (evs & Ht & Ho & Hq & Hstop).
  destruct (confined_trigger st) as (evs' & Ht' & Hown & Hfed).
  assert (evs' = evs) as -> by (rewrite Ht in Ht'; eapply app_inv_head; eauto).
  rewrite (session_events_eq w b st evs Ht), Ho.
  split; [exact Hq|]. split; [exact Hstop|]. split; [exact Hfed|].
  split; [exact Hown|].
  exact (replay_frame evs Hown (obs st)).
Qed.

End Frame.

(** ** More on the recognition loop *)

Section MoreLoop.

Context (w : World) (b : Bot).

Lemma trigger_keeps st :
  audio_queue (_trigger_censor w b st).1 = audio_queue st /\
  stop_event (_trigger_censor w b st).1 = stop_event st /\
  fed (_trigger_censor w b st).1 = fed st.
Proof.
  destruct (grows_trigger w b st) as (evs & _ & _ & Hq & Hstop).
  destruct (confined_trigger w b st) as (evs' & _ & _ & Hfed).
  auto.
Qed.

(** One frame: it is handed to the recognizer, and neither the queue nor
    the stop flag is touched. *)
Lemma process_frame_frame data st :
  fed (process_frame w b data st).1 = fed st ++ [data] /\
  audio_queue (process_frame w b data st).1 = audio_queue st /\
  stop_event (process_frame w b data st).1 = stop_event st.
Proof.
  unfold process_frame, AcceptWaveform, Result. settle. cbn [set_fed fed].
  destruct (accept_waveform w (fed st ++ [data])) as [[|]|];
    try (cbn; auto; fail).
  cbn [set_fed fed].
  destruct (PyStr.truthy _); [|cbn; auto].
  destruct (bool_decide _); [cbn; auto|].
  settle.
  match goal with
  | |- context [_trigger_censor w b ?s] =>
      destruct (trigger_keeps s) as (Hq & Hs & Hf)
  end.
  cbn in Hq, Hs, Hf. rewrite Hq, Hs, Hf. auto.
Qed.

Lemma loop_step fuel st x rest :
  stop_event st = false ->
  Queue.items (audio_queue st) = x :: rest ->
  _recognition_loop w b (S fuel) st =
  match process_frame w b x
          (set_audio_queue {| Queue.maxsize := Queue.maxsize (audio_queue st);
                              Queue.items := rest |} st) with
  | (st2, Ok _) => _recognition_loop w b fuel st2
  | (st2, Raise e) => (st2, Raise e)
  end.
Proof.
  intros Hs Hi. cbn [_recognition_loop]. rewrite Hs.
  unfold Queue.get. rewrite Hi. reflexivity.
Qed.

Lemma loop_idle fuel st :
  Queue.items (audio_queue st) = [] ->
  _recognition_loop w b fuel st = (st, Ok tt).
Proof.
  intros Hi. induction fuel as [|fuel IH]; [reflexivity|].
  cbn [_recognition_loop]. destruct (stop_event st); [reflexivity|].
  unfold Queue.get. rewrite Hi. exact IH.
Qed.

(** The loop takes the frames off the head of the queue, one by one and in
    order; when it returns normally with the stop flag clear and fuel for
    every queued frame, it has taken them all. *)
Lemma loop_consumes fuel :
  forall st,
    exists k,
      (k <= fuel)%nat /\
      fed (_recognition_loop w b fuel st).1
      = fed st ++ take k (Queue.items (audio_queue st)) /\
      Queue.items (audio_queue (_recognition_loop w b fuel st).1)
      = drop k (Queue.items (audio_queue st)) /\
      Queue.maxsize (audio_queue (_recognition_loop w b fuel st).1)
      = Queue.maxsize (audio_queue st) /\
      stop_event (_recognition_loop w b fuel st).1 = stop_event st /\
      ((_recognition_loop w b fuel st).2 = Ok tt ->
       stop_event st = false ->
       (length (Queue.items (audio_queue st)) <= fuel)%nat ->
       k = length (Queue.items (audio_queue st))).
Proof.
  induction fuel as [|fuel IH]; intros st.
  - exists 0%nat. simpl. rewrite app_nil_r.
    repeat split; auto; intros; lia.
  - destruct (stop_event st) eqn:Hs.
    { exists 0%nat. cbn [_recognition_loop]. rewrite Hs. simpl.
      rewrite app_nil_r. repeat split; auto; try lia; intros; congruence. }
    destruct (Queue.items (audio_queue st)) as [|x rest] eqn:Hi.
    { exists 0%nat. rewrite (loop_idle (S fuel) st Hi). simpl.
      rewrite app_nil_r, Hi. repeat split; auto; intros; simpl; lia. }
    rewrite (loop_step fuel st x rest Hs Hi).
    set (st1 := set_audio_queue _ st).
    destruct (process_frame_frame x st1) as (Hf & Hq & Hstop).
    destruct (process_frame w b x st1) as [st2 [[]|e]]; cbn [fst] in Hf, Hq, Hstop.
    + destruct (IH st2) as (k & Hk & Hfed & Hitems & Hmax & Hst & Hall).
      rewrite Hq in Hitems, Hmax, Hall. rewrite Hf, Hq in Hfed.
      cbn in Hfed, Hitems, Hmax, Hall.
      exists (S k). split; [lia|].
      split; [rewrite Hfed, <- app_assoc; reflexivity|].
      split; [exact Hitems|]. split; [exact Hmax|].
      split; [rewrite Hst, Hstop; exact Hs|].
      intros Hr _ Hlen. cbn [length] in Hlen |- *. f_equal.
      apply Hall; [exact Hr|rewrite Hstop; exact Hs|lia].
    + exists 1%nat. cbn [fst snd]. rewrite Hf, Hq. cbn.
      split; [lia|]. split; [reflexivity|]. split; [reflexivity|].
      split; [reflexivity|]. split; [rewrite Hstop; exact Hs|].
      intros Hr. discriminate Hr.
Qed.

(** X11. However the run goes, the recognizer is fed a front part of the
    queue, frame by frame and in queue order, at most one frame per
    iteration, and exactly the rest stays queued: no frame is skipped,
    repeated or reordered. The capacity setting of the queue and the stop
    flag are never changed. *)
Theorem loop_fifo (fuel : nat) (st : State) :
  let st' := (_recognition_loop w b fuel st).1 in
  exists k,
    (k <= fuel)%nat /\
    fed st' = fed st ++ take k (Queue.items (audio_queue st)) /\
    Queue.items (audio_queue st') = drop k (Queue.items (audio_queue st)) /\
    Queue.maxsize (audio_queue st') = Queue.maxsize (audio_queue st) /\
    stop_event st' = stop_event st.
Proof.
  cbv zeta.
  destruct (loop_consumes fuel st) as (k & H1 & H2 & H3 & H4 & H5 & _).
  exists k. auto.
Qed.

(** X12. From start-up, what the capture side pushes is what the recognizer
    gets: if the loop, with an iteration for each captured block, returns
    normally, then the recognizer was fed exactly the captured blocks in
    capture order and the queue is empty. *)
Theorem capture_then_loop (o : Obs) (blocks : list bytes) (fuel : nat)
    (st1 : State) :
  capture blocks (init_state o) = Some st1 ->
  (length blocks <= fuel)%nat ->
  (_recognition_loop w b fuel st1).2 = Ok tt ->
  fed (_recognition_loop w b fuel st1).1 = blocks /\
  Queue.items (audio_queue (_recognition_loop w b fuel st1).1) = [].
Proof.
  intros Hc Hlen Hr.
  rewrite capture_appends in Hc by (simpl; lia).
  injection Hc as <-.
  destruct (loop_consumes fuel
              (set_audio_queue
                 {| Queue.maxsize := Queue.maxsize (audio_queue (init_state o));
                    Queue.items := Queue.items (audio_queue (init_state o)) ++ blocks |}
                 (init_state o)))
    as (k & _ & Hfed & Hitems & _ & _ & Hall).
  cbn in Hfed, Hitems, Hall, Hlen |- *.
  rewrite (Hall Hr eq_refl Hlen) in Hfed, Hitems.
  rewrite Hfed, Hitems, firstn_all, skipn_all. auto.
Qed.

(** One frame when the recognizer neither raises nor hears a word of the
    set: at most the result is printed. *)
Lemma process_frame_quiet data st :
  accept_waveform w (fed st ++ [data]) <> None ->
  (accept_waveform w (fed st ++ [data]) = Some true ->
   detect (default "" (result_text w (fed st ++ [data]))) (swear_words b) = ∅) ->
  exists evs,
    process_frame w b data st =
    ({| silence := silence st; stop_event := stop_event st;
        audio_queue := audio_queue st; fed := fed st ++ [data];
        obs := obs st; trace := trace st ++ evs |}, Ok tt) /\
    (evs = [] \/ exists r, evs = [Printed (LogResult r)]).
Proof.
  intros Hacc Hdet.
  unfold process_frame, AcceptWaveform, Result. settle. cbn [set_fed fed].
  destruct (accept_waveform w (fed st ++ [data])) as [[|]|]; [| |congruence].
  - specialize (Hdet eq_refl).
    cbn [set_fed fed silence stop_event audio_queue obs trace apply_event].
    exists [Printed (LogResult (result_text w (fed st ++ [data])))].
    split; [|right; eexists; reflexivity].
    unfold detect in Hdet. rewrite Hdet.
    destruct (PyStr.truthy _); [rewrite bool_decide_eq_true_2 by reflexivity|];
      reflexivity.
  - exists []. split; [|left; reflexivity].
    cbn. rewrite app_nil_r. reflexivity.
Qed.

(** X13. As long as the recognizer neither raises nor delivers a text with
    a word of the set, the loop returns normally for any number of
    iterations, issues no request to OBS, leaves OBS and the flag as they
    were, and prints nothing but recognition results. *)
Theorem quiet_loop (fuel : nat) (st : State) :
  (forall f, accept_waveform w f <> None) ->
  (forall f, detect (default "" (result_text w f)) (swear_words b) = ∅) ->
  let st' := (_recognition_loop w b fuel st).1 in
  (_recognition_loop w b fuel st).2 = Ok tt /\
  obs st' = obs st /\
  silence st' = silence st /\
  requests (loop_events w b fuel st) = [] /\
  Forall (fun e => exists r, e = Printed (LogResult r)) (loop_events w b fuel st).
Proof.
  intros Hacc Hdet. cbv zeta.
  assert (E : forall fuel st, exists evs,
             (_recognition_loop w b fuel st).2 = Ok tt /\
             obs (_recognition_loop w b fuel st).1 = obs st /\
             silence (_recognition_loop w b fuel st).1 = silence st /\
             trace (_recognition_loop w b fuel st).1 = trace st ++ evs /\
             requests evs = [] /\
             Forall (fun e => exists r, e = Printed (LogResult r)) evs).
  { clear fuel st. induction fuel as [|fuel IH]; intros st.
    - exists []. simpl. rewrite app_nil_r.
      repeat split; try reflexivity. constructor.
    - destruct (stop_event st) eqn:Hs.
      { exists []. cbn [_recognition_loop]. rewrite Hs. simpl.
        rewrite app_nil_r. repeat split; try reflexivity. constructor. }
      destruct (Queue.items (audio_queue st)) as [|x rest] eqn:Hi.
      { exists []. rewrite (loop_idle (S fuel) st Hi). simpl.
        rewrite app_nil_r. repeat split; try reflexivity. constructor. }
      rewrite (loop_step fuel st x rest Hs Hi).
      set (st1 := set_audio_queue _ st).
      destruct (process_frame_quiet x st1 (Hacc _) (fun _ => Hdet _))
        as (evs1 & Hp & Hev).
      rewrite Hp. cbv beta iota.
      match goal with
      | |- context [_recognition_loop w b fuel ?s] =>
          destruct (IH s) as (evs2 & Hr & Ho & Hsil & Ht & Hreq & Hall)
      end.
      exists (evs1 ++ evs2).
      rewrite Hr, Ho, Hsil, Ht. cbn [obs silence trace]. rewrite app_assoc.
      repeat split.
      + unfold requests in *. rewrite omap_app, Hreq.
        destruct Hev as [->|[r ->]]; reflexivity.
      + apply Forall_app. split; [|exact Hall].
        destruct Hev as [->|[r ->]]; [constructor|].
        constructor; [eexists; reflexivity|constructor]. }
  destruct (E fuel st) as (evs & Hr & Ho & Hsil & Ht & Hreq & Hall).
  unfold loop_events. rewrite Ht, drop_app_length. auto.
Qed.

End MoreLoop.

(** ** Start-up *)

(** X14. Start-up finds the overlay item exactly when OBS lists both the
    microphone input and the media source and has an item for the media
    source in the scene on air; the bot then keeps that scene and that item
    id. A missing microphone input ends start-up with [SystemExit] naming
    the microphone, whether or not the media source exists; and whatever
    exception the item query raises comes out as [SystemExit]. *)
Theorem prepare_scene_items_spec (c : Config) (s : Studio) :
  (forall scene item,
      _prepare_scene_items c s = Ok (scene, item) <->
      exists inputs,
        get_input_list s = Ok inputs /\
        mic_source_name c ∈ inputs /\
        cat_source_name c ∈ inputs /\
        get_current_program_scene s = Ok scene /\
        get_scene_item_id s scene (cat_source_name c) = inl item) /\
  (forall inputs,
      get_input_list s = Ok inputs ->
      mic_source_name c ∉ inputs ->
      _prepare_scene_items c s =
      Raise (SystemExit ("[ERR] Mic source '" +:+ mic_source_name c +:+
                         "' not found in OBS"))) /\
  (forall inputs scene e,
      get_input_list s = Ok inputs ->
      mic_source_name c ∈ inputs ->
      cat_source_name c ∈ inputs ->
      get_current_program_scene s = Ok scene ->
      get_scene_item_id s scene (cat_source_name c) = inr e ->
      exists msg, _prepare_scene_items c s = Raise (SystemExit msg)).
Proof.
  unfold _prepare_scene_items. split; [|split].
  - intros scene item. split.
    + destruct (get_input_list s) as [inputs|e]; [|discriminate].
      case_bool_decide as Hm; [|discriminate].
      case_bool_decide as Hc; [|discriminate].
      destruct (get_current_program_scene s) as [sc|e]; [|discriminate].
      destruct (get_scene_item_id s sc (cat_source_name c)) as [i|e] eqn:Hi;
        [|discriminate].
      intros [= <- <-]. exists inputs. auto.
    + intros (inputs & -> & Hm & Hc & -> & ->).
      rewrite !bool_decide_eq_true_2 by assumption. reflexivity.
  - intros inputs -> Hm. rewrite bool_decide_eq_false_2 by assumption.
    reflexivity.
  - intros inputs scene e -> Hm Hc -> ->.
    rewrite !bool_decide_eq_true_2 by assumption. eexists. reflexivity.
Qed.

(** ** The further properties on the concrete installation *)


Lemma normal_return_means_complete_witness :
  silence (init_state Demo.obs0) = false /\
  (_trigger_censor Demo.world Demo.bot (init_state Demo.obs0)).2 = Ok tt /\
  exists path vids,
    videos Demo.world Demo.bot = Some vids /\ path ∈ vids /\
    session_events Demo.world Demo.bot (init_state Demo.obs0)
    = full_session Demo.bot path.
Proof.
  assert (Hr : (_trigger_censor Demo.world Demo.bot (init_state Demo.obs0)).2
               = Ok tt) by (vm_compute; reflexivity).
  destruct (normal_return_means_complete Demo.world Demo.bot
              (init_state Demo.obs0) eq_refl Hr)
    as (_ & path & vids & Hv & Hin & Hev & _).
  split; [reflexivity|]. split; [exact Hr|].
  exists path, vids. auto.
Defined.

Lemma flag_stuck_iff_cleanup_failed_witness :
  silence (init_state Demo.obs0) = false /\
  silence (_trigger_censor Demo.unmute_fails_world Demo.bot
             (init_state Demo.obs0)).1 = true /\
  (RequestFailed (overlay_call Demo.bot false)
     ∈ session_events Demo.unmute_fails_world Demo.bot (init_state Demo.obs0) \/
   RequestFailed (mute_call Demo.bot false)
     ∈ session_events Demo.unmute_fails_world Demo.bot (init_state Demo.obs0)).
Proof.
  assert (Hs : silence (_trigger_censor Demo.unmute_fails_world Demo.bot
                          (init_state Demo.obs0)).1 = true)
    by (vm_compute; reflexivity).
  split; [reflexivity|]. split; [exact Hs|].
  apply (flag_stuck_iff_cleanup_failed Demo.unmute_fails_world Demo.bot
           (init_state Demo.obs0) eq_refl).
  exact Hs.
Defined.


Lemma capture_then_loop_witness :
  exists st1,
    capture [Demo.frame1; Demo.frame2] (init_state Demo.obs0) = Some st1 /\
    (_recognition_loop Demo.world Demo.bot 2 st1).2 = Ok tt /\
    fed (_recognition_loop Demo.world Demo.bot 2 st1).1
    = [Demo.frame1; Demo.frame2] /\
    Queue.items (audio_queue (_recognition_loop Demo.world Demo.bot 2 st1).1)
    = [].
Proof.
  eexists. split; [reflexivity|].
  match goal with
  | |- ?P /\ _ => assert (Hr : P) by (vm_compute; reflexivity)
  end.
  split; [exact Hr|].
  apply (capture_then_loop Demo.world Demo.bot Demo.obs0
           [Demo.frame1; Demo.frame2] 2).
  - reflexivity.
  - simpl. lia.
  - exact Hr.
Defined.

Lemma quiet_loop_witness :
  (forall f, accept_waveform Demo2.polite_world f <> None) /\
  (forall f, detect (default "" (result_text Demo2.polite_world f))
               (swear_words Demo.bot) = ∅) /\
  (_recognition_loop Demo2.polite_world Demo.bot 5 Demo.two_frames).2 = Ok tt /\
  requests (loop_events Demo2.polite_world Demo.bot 5 Demo.two_frames) = [] /\
  obs (_recognition_loop Demo2.polite_world Demo.bot 5 Demo.two_frames).1
  = Demo.obs0.
Proof.
  assert (Ha : forall f, accept_waveform Demo2.polite_world f <> None)
    by (intros f; discriminate).
  assert (Hd : forall f, detect (default "" (result_text Demo2.polite_world f))
                           (swear_words Demo.bot) = ∅)
    by (intros f; vm_compute; reflexivity).
  destruct (quiet_loop Demo2.polite_world Demo.bot 5 Demo.two_frames Ha Hd)
    as (Hr & Ho & _ & Hreq & _).
  split; [exact Ha|]. split; [exact Hd|]. split; [exact Hr|].
  split; [exact Hreq|exact Ho].
Defined.

Lemma prepare_scene_items_spec_witness :
  _prepare_scene_items Demo.config Demo2.studio = Ok ("Live", 7%Z).
Proof.
  destruct (prepare_scene_items_spec Demo.config Demo2.studio) as (Hok & _).
  apply Hok. exists ["Desktop Audio"; "Mic/Aux"; "SneezeCat"].
  split; [reflexivity|]. split; [solve_elem|]. split; [solve_elem|].
  split; reflexivity.
Defined.

Lemma trigger_frame_witness :
  input_muted
    (obs (_trigger_censor Demo.world Demo.bot
            (emit (Request (set_input_mute "Desktop Audio" true))
               (init_state Demo.obs0))).1)
  !! "Desktop Audio" = Some true.
Proof.
  destruct (trigger_frame Demo.world Demo.bot
              (emit (Request (set_input_mute "Desktop Audio" true))
                 (init_state Demo.obs0)))
    as (_ & _ & _ & _ & Hm & _).
  rewrite Hm by discriminate. reflexivity.
Defined.

Lemma loop_fifo_witness :
  exists k,
    (k <= 1)%nat /\
    fed (_recognition_loop Demo.world Demo.bot 1 Demo.two_frames).1
    = take k [Demo.frame1; Demo.frame2] /\
    Queue.items
      (audio_queue (_recognition_loop Demo.world Demo.bot 1 Demo.two_frames).1)
    = drop k [Demo.frame1; Demo.frame2].
Proof.
  destruct (loop_fifo Demo.world Demo.bot 1 Demo.two_frames)
    as (k & Hk & Hfed & Hitems & _).
  exists k. split; [exact Hk|]. split; [exact Hfed|exact Hitems].
Defined.

(** ** One session per detection *)

Section PerDetection.

Context (w : World) (b : Bot).





End PerDetection.

